(** * The SQLite driver of Hawiah: a shallow embedding and its properties

    The driver ([src/drivers/SQLiteDriver.ts]) keeps records in one table,
    either as one JSON text per row (no schema attached) or as one column
    per schema field plus an [_extras] JSON text (schema attached).

    Conventions of the embedding.
    - A JavaScript value is a [value]; an object is the finite map of its
      own enumerable properties ([gmap string value]). The members that a
      plain object inherits from [Object.prototype] are there for the [in]
      operator ([hasProperty]); reading one of them as a property, and
      converting to a string an object that overrides [toString], are
      outside the model.
    - Numbers are the integers, [NaN] and the two infinities; the driver
      never computes with a number, it only tests and stores them.
    - What the runtime and the engine provide ([JSON.stringify],
      [JSON.parse], the SQL statements the driver prepares) is modelled by
      its contract; what the driver itself does is translated line by line.
    - A call that throws returns [Err]; the clock and the random source are
      explicit arguments. *)

From stdpp Require Import gmap strings list fin_maps pretty.
From Stdlib Require Import ZArith Ascii.

Local Open Scope string_scope.
Local Open Scope Z_scope.

(** ** Values *)

#[local] Set Warnings "-register-all".

Inductive num :=
| Fin (z : Z)
| NaN
| Inf (negative : bool).

Inductive value :=
| VUndefined
| VNull
| VBool (b : bool)
| VNum (n : num)
| VStr (s : string)
| VBuffer (bytes : string)
| VArr (items : list value)
| VObj (props : gmap string value).

(** What a throwing call throws. *)
Inductive error :=
| NotConnected
| TypeError
| SyntaxError
| ConstraintViolation
| RangeError
| BackingEngineFailure (msg : string).

Inductive result (A : Type) :=
| Ok (a : A)
| Err (e : error).
Arguments Ok {A} a.
Arguments Err {A} e.

Definition bind {A B} (r : result A) (k : A → result B) : result B :=
  match r with
  | Ok a => k a
  | Err e => Err e
  end.

Notation "'let*' x ':=' r 'in' k" := (bind r (λ x, k))
  (at level 10, x name, r at level 100, k at level 200).

Fixpoint mapR {A B} (f : A → result B) (l : list A) : result (list B) :=
  match l with
  | [] => Ok []
  | a :: l' => let* b := f a in let* bs := mapR f l' in Ok (b :: bs)
  end.

Fixpoint filterR {A} (f : A → result bool) (l : list A) : result (list A) :=
  match l with
  | [] => Ok []
  | a :: l' => let* b := f a in let* rest := filterR f l' in
      Ok (if b : bool then a :: rest else rest)
  end.

(** ** The operators of the language the driver uses *)

Inductive jstype := TyUndefined | TyObject | TyBoolean | TyNumber | TyString.

Definition typeof (v : value) : jstype :=
  match v with
  | VUndefined => TyUndefined
  | VBool _ => TyBoolean
  | VNum _ => TyNumber
  | VStr _ => TyString
  | VNull | VBuffer _ | VArr _ | VObj _ => TyObject
  end.

Definition jstype_eqb (a b : jstype) : bool :=
  match a, b with
  | TyUndefined, TyUndefined | TyObject, TyObject | TyBoolean, TyBoolean
  | TyNumber, TyNumber | TyString, TyString => true
  | _, _ => false
  end.

(** [if (v)] *)
Definition truthy (v : value) : bool :=
  match v with
  | VUndefined | VNull => false
  | VBool b => b
  | VNum (Fin z) => negb (z =? 0)
  | VNum NaN => false
  | VNum (Inf _) => true
  | VStr s => negb (String.eqb s EmptyString)
  | VBuffer _ | VArr _ | VObj _ => true
  end.

Definition num_eqb (a b : num) : bool :=
  match a, b with
  | Fin x, Fin y => x =? y
  | Inf s, Inf t => Bool.eqb s t
  | _, _ => false
  end.

(** [a === b], for [a] read from a materialized record and [b] supplied by
    the caller: two objects are equal only when they are the same object,
    which a freshly decoded one never is. *)
Definition strictEq (a b : value) : bool :=
  match a, b with
  | VUndefined, VUndefined => true
  | VNull, VNull => true
  | VBool x, VBool y => Bool.eqb x y
  | VNum x, VNum y => num_eqb x y
  | VStr x, VStr y => String.eqb x y
  | _, _ => false
  end.

Definition num_toString (n : num) : string :=
  match n with
  | Fin z => pretty z
  | NaN => "NaN"
  | Inf false => "Infinity"
  | Inf true => "-Infinity"
  end.

Fixpoint join (sep : string) (l : list string) : string :=
  match l with
  | [] => EmptyString
  | [s] => s
  | s :: l' => s +:+ sep +:+ join sep l'
  end.

(** [String(v)], for a value that does not define its own conversion; a
    buffer reads as its bytes. *)
Fixpoint toString (v : value) : string :=
  match v with
  | VUndefined => "undefined"
  | VNull => "null"
  | VBool true => "true"
  | VBool false => "false"
  | VNum n => num_toString n
  | VStr s => s
  | VBuffer b => b
  | VArr l =>
      join "," (map (λ x, match x with
                           | VUndefined | VNull => EmptyString
                           | _ => toString x
                           end) l)
  | VObj _ => "[object Object]"
  end.

Definition upper_ascii (c : ascii) : ascii :=
  let n := N_of_ascii c in
  if ((97 <=? n) && (n <=? 122))%N then ascii_of_N (n - 32) else c.

(** [s.toUpperCase()] on ASCII letters; other bytes are kept. *)
Fixpoint toUpperCase (s : string) : string :=
  match s with
  | EmptyString => EmptyString
  | String c s' => String (upper_ascii c) (toUpperCase s')
  end.

(** [hay.includes(needle)] *)
Fixpoint includes (hay needle : string) : bool :=
  String.prefix needle hay ||
  match hay with
  | EmptyString => false
  | String _ hay' => includes hay' needle
  end.

Fixpoint chars_from (i : nat) (s : string) : gmap string value :=
  match s with
  | EmptyString => ∅
  | String c s' => <[pretty i := VStr (String c EmptyString)]> (chars_from (S i) s')
  end.

Fixpoint items_from (i : nat) (l : list value) : gmap string value :=
  match l with
  | [] => ∅
  | x :: l' => <[pretty i := x]> (items_from (S i) l')
  end.

(** The own enumerable properties of a value: what [{...v}] copies and
    what [Object.entries(v)] lists. *)
Definition ownProps (v : value) : gmap string value :=
  match v with
  | VObj o => o
  | VArr l => items_from 0 l
  | VStr s => chars_from 0 s
  | _ => ∅
  end.

(** [v[k]], for [k] an own property or a name that is nowhere on the
    prototype chain: reading a property of [null] or [undefined] throws. *)
Definition getProp (v : value) (k : string) : result value :=
  match v with
  | VUndefined | VNull => Err TypeError
  | VStr s =>
      if String.eqb k "length" then Ok (VNum (Fin (Z.of_nat (String.length s))))
      else Ok (default VUndefined (chars_from 0 s !! k))
  | VArr l =>
      if String.eqb k "length" then Ok (VNum (Fin (Z.of_nat (length l))))
      else Ok (default VUndefined (items_from 0 l !! k))
  | VObj o => Ok (default VUndefined (o !! k))
  | _ => Ok VUndefined
  end.

(** [o[k]] on an object that is known not to be nullish. *)
Definition field (o : gmap string value) (k : string) : value :=
  default VUndefined (o !! k).

(** [{...a, ...b}] *)
Definition spread (a b : gmap string value) : gmap string value := b ∪ a.

(** ** Type mapper *)

(** [mapHawiahTypeToSQL] *)
Definition mapHawiahTypeToSQL (type : value) : string :=
  let t :=
    if jstype_eqb (typeof type) TyObject
       && negb (strictEq type VNull)
       && truthy (field (ownProps type) "type")
    then field (ownProps type) "type"
    else type in
  let t := toUpperCase (toString t) in
  if includes t "STRING" || includes t "TEXT" || includes t "EMAIL"
     || includes t "URL" || includes t "UUID" || includes t "CHAR" then "TEXT"
  else if includes t "NUMBER" then
    if includes t "INT" then "INTEGER" else "REAL"
  else if includes t "BOOLEAN" then "INTEGER"
  else if includes t "DATE" then "TEXT"
  else if includes t "BLOB" || includes t "BUFFER" then "BLOB"
  else "TEXT".

(** The rule of the specification, on a normalized tag (section 4.1):
    the first rule that applies decides. *)
Inductive column_type := TEXT | INTEGER | REAL | BLOB.

Definition column_type_name (c : column_type) : string :=
  match c with
  | TEXT => "TEXT"
  | INTEGER => "INTEGER"
  | REAL => "REAL"
  | BLOB => "BLOB"
  end.

Definition contains_any (tag : string) (words : list string) : bool :=
  existsb (includes tag) words.

Definition spec_column_type (tag : string) : column_type :=
  if contains_any tag ["STRING"; "TEXT"; "EMAIL"; "URL"; "UUID"; "CHAR"] then TEXT
  else if contains_any tag ["NUMBER"] then
    (if contains_any tag ["INT"] then INTEGER else REAL)
  else if contains_any tag ["BOOLEAN"] then INTEGER
  else if contains_any tag ["DATE"] then TEXT
  else if contains_any tag ["BLOB"; "BUFFER"] then BLOB
  else TEXT.

(** The tag of a descriptor: a structured descriptor is unwrapped to its
    [type] field, then the tag is put in upper case. *)
Definition normalized_tag (descriptor : value) : string :=
  match descriptor with
  | VObj o =>
      if truthy (field o "type") then toUpperCase (toString (field o "type"))
      else toUpperCase (toString descriptor)
  | _ => toUpperCase (toString descriptor)
  end.

(** ** The JSON codec of the runtime *)

Definition byte_values (bytes : string) : list value :=
  map (λ c, VNum (Fin (Z.of_N (N_of_ascii c)))) (String.list_ascii_of_string bytes).

(** The JSON value that [JSON.stringify] writes for [v]; [None] where it
    writes nothing ([undefined]). A property without a JSON value is left
    out, an array item without one becomes [null], a number that is not
    finite becomes [null], a buffer becomes its [{type, data}] object. *)
Fixpoint toJSON (v : value) : option value :=
  match v with
  | VUndefined => None
  | VNull | VBool _ | VStr _ | VNum (Fin _) => Some v
  | VNum _ => Some VNull
  | VBuffer b =>
      Some (VObj (<["type" := VStr "Buffer"]> {["data" := VArr (byte_values b)]}))
  | VArr l => Some (VArr (map (λ x, default VNull (toJSON x)) l))
  | VObj o => Some (VObj (omap toJSON o))
  end.

(** A text held by a [_data] or [_extras] cell. The driver only ever
    hands such a text to [JSON.parse], so a text is modelled by what it
    decodes to: [JsonText j] is a JSON text that decodes to [j], and
    [Garbled s] is a text [s] that is not JSON (the empty text included). *)
Inductive text :=
| JsonText (j : value)
| Garbled (s : string).

(** [JSON.stringify(v)] for an object or array [v] *)
Definition JSON_stringify (v : value) : text :=
  JsonText (default VNull (toJSON v)).

(** [JSON.parse(t)]; a text that is not JSON throws a [SyntaxError]. *)
Definition JSON_parse (t : text) : result value :=
  match t with
  | JsonText j => Ok j
  | Garbled _ => Err SyntaxError
  end.

Definition hex_digit (n : N) : ascii :=
  match n with
  | 0 => "0" | 1 => "1" | 2 => "2" | 3 => "3" | 4 => "4" | 5 => "5"
  | 6 => "6" | 7 => "7" | 8 => "8" | 9 => "9" | 10 => "a" | 11 => "b"
  | 12 => "c" | 13 => "d" | 14 => "e" | _ => "f"
  end%char%N.

Definition escape_char (c : ascii) : string :=
  let n := N_of_ascii c in
  if (n =? 34)%N then "\" +:+ String c EmptyString
  else if (n =? 92)%N then "\\"
  else if (n =? 8)%N then "\b"
  else if (n =? 12)%N then "\f"
  else if (n =? 10)%N then "\n"
  else if (n =? 13)%N then "\r"
  else if (n =? 9)%N then "\t"
  else if (n <? 32)%N then
    "\u00" +:+ String (hex_digit (n / 16)) (String (hex_digit (n mod 16)) EmptyString)
  else String c EmptyString.

Fixpoint escape (s : string) : string :=
  match s with
  | EmptyString => EmptyString
  | String c s' => escape_char c +:+ escape s'
  end.

Definition quote (s : string) : string :=
  String (ascii_of_N 34) (escape s) +:+ String (ascii_of_N 34) EmptyString.

(** The characters of a JSON text, for the JSON values [toJSON] yields. *)
Fixpoint render (j : value) : string :=
  match j with
  | VBool true => "true"
  | VBool false => "false"
  | VNum (Fin z) => pretty z
  | VStr s => quote s
  | VArr l => "[" +:+ join "," (map render l) +:+ "]"
  | VObj o =>
      "{" +:+ join "," (map_fold (λ k x acc, (quote k +:+ ":" +:+ render x) :: acc) [] o)
          +:+ "}"
  | _ => "null"
  end.

(** The characters of a text, when it is read as a string. *)
Definition text_string (t : text) : string :=
  match t with
  | JsonText j => render j
  | Garbled s => s
  end.

(** [if (t)] on a text *)
Definition text_truthy (t : text) : bool :=
  match t with
  | JsonText _ => true
  | Garbled s => negb (String.eqb s EmptyString)
  end.

(** ** The engine *)

(** What a cell of the table holds. *)
Inductive cell :=
| CNull
| CNum (n : num)
| CText (s : string)
| CBlob (bytes : string).

(** A row: the key, the columns of the schema fields (none in a table
    without schema), the JSON text ([_data] without schema, [_extras] with
    one; [None] is SQL NULL) and the two timestamps. The table is taken to
    have the layout of the mode the driver is in, as [connect] creates it;
    the conversions of column affinity are not modelled. *)
Record row := {
  r_id : string;
  r_cols : gmap string cell;
  r_payload : option text;
  r_createdAt : string;
  r_updatedAt : string;
}.

(** A cell as the binding hands it to the program. *)
Definition cell_value (c : cell) : value :=
  match c with
  | CNull => VNull
  | CNum n => VNum n
  | CText s => VStr s
  | CBlob b => VBuffer b
  end.

(** Binding one value to a parameter of a prepared statement: numbers,
    strings and buffers are bound as they are, [null], [undefined] and
    [NaN] as NULL; a boolean is refused, and so is an array or an object
    in the place of a value. *)
Definition bindValue (v : value) : result cell :=
  match v with
  | VNull | VUndefined => Ok CNull
  | VNum NaN => Ok CNull
  | VNum n => Ok (CNum n)
  | VStr s => Ok (CText s)
  | VBuffer b => Ok (CBlob b)
  | VBool _ | VArr _ | VObj _ => Err TypeError
  end.

(** Binding the argument [v] of [run] or [get] to the one parameter that
    the statement leaves to it: the binding reads an array as the list of
    the values, which must then be one value, and a plain object as the
    values of the named parameters, of which the statements of the driver
    have none. *)
Definition bindParam (v : value) : result cell :=
  match v with
  | VArr [x] => bindValue x
  | VArr _ | VObj _ => Err RangeError
  | _ => bindValue v
  end.

(** [WHERE _id = ?]: a text equals the key that is the same text; a
    number, a buffer or NULL is taken to equal no key (the keys that the
    driver makes are not numerals). *)
Definition key_matches (k : cell) (r : row) : bool :=
  match k with
  | CText s => String.eqb s (r_id r)
  | _ => false
  end.

(** ** The driver *)

Inductive db_type := sql | nosql.

(** A schema is the definition itself, or an object whose
    [getDefinition()] returns it. *)
Inductive schema_object :=
| Definition_ (definition : gmap string value)
| Schema_ (definition : gmap string value).

Definition getDefinition (s : schema_object) : gmap string value :=
  match s with
  | Definition_ d => d
  | Schema_ d => d
  end.

(** The fields of the class, and behind [db] the table of the file
    ([None]: no table) and the content to restore when a transaction is
    open. *)
Record SQLiteDriver := {
  db : bool;
  schema : option schema_object;
  dbType : db_type;
  table : option (list row);
  snapshot : option (option (list row));
}.

Definition with_db (b : bool) (d : SQLiteDriver) : SQLiteDriver :=
  {| db := b; schema := schema d; dbType := dbType d;
     table := table d; snapshot := snapshot d |}.

Definition with_table (t : option (list row)) (d : SQLiteDriver) : SQLiteDriver :=
  {| db := db d; schema := schema d; dbType := dbType d;
     table := t; snapshot := snapshot d |}.

Definition with_snapshot (s : option (option (list row))) (d : SQLiteDriver)
  : SQLiteDriver :=
  {| db := db d; schema := schema d; dbType := dbType d;
     table := table d; snapshot := s |}.

(** A method of the driver: it returns or throws, and leaves a driver. *)
Definition M (A : Type) : Type := SQLiteDriver → result A * SQLiteDriver.

Definition ret {A} (a : A) : M A := λ d, (Ok a, d).
Definition throw {A} (e : error) : M A := λ d, (Err e, d).
Definition lift {A} (r : result A) : M A := λ d, (r, d).

Definition andThen {A B} (m : M A) (k : A → M B) : M B :=
  λ d, match m d with
       | (Ok a, d') => k a d'
       | (Err e, d') => (Err e, d')
       end.

Notation "'let!' x ':=' m 'in' k" := (andThen m (λ x, k))
  (at level 10, x name, m at level 100, k at level 200).
Notation "m ;; k" := (andThen m (λ _, k))
  (at level 100, right associativity).

(** *** Statements *)

Definition no_such_table : error := BackingEngineFailure "no such table".

Definition rows : M (list row) := λ d,
  match table d with
  | Some t => (Ok t, d)
  | None => (Err no_such_table, d)
  end.

Definition store (t : list row) : M unit := λ d, (Ok tt, with_table (Some t) d).

(** [INSERT INTO t (...) VALUES (...)] *)
Definition sqlInsert (r : row) : M unit :=
  let! t := rows in
  if existsb (λ x, String.eqb (r_id x) (r_id r)) t then throw ConstraintViolation
  else store (t ++ [r]).

Definition no_such_column : error := BackingEngineFailure "no such column".

(** Preparing a statement that names the columns [used], on the table
    whose schema columns are [columns]: the engine refuses a statement on
    a missing table, and one that names a column the table lacks. *)
Definition sqlPrepareColumns (columns used : gset string) : M unit :=
  let! _ := rows in
  if bool_decide (used ⊆ columns) then ret tt else throw no_such_column.

(** [SELECT ... FROM t] *)
Definition sqlSelectAll : M (list row) := rows.

(** [SELECT ... FROM t WHERE _id = ?] *)
Definition sqlSelectById (k : cell) : M (option row) :=
  let! t := rows in ret (List.find (key_matches k) t).

(** [UPDATE t SET ... WHERE _id = ?] *)
Definition sqlUpdate (change : row → row) (k : cell) : M unit :=
  let! t := rows in
  store (map (λ r, if key_matches k r then change r else r) t).

(** [DELETE FROM t WHERE _id = ?] *)
Definition sqlDelete (k : cell) : M unit :=
  let! t := rows in store (List.filter (λ r, negb (key_matches k r)) t).

(** [SELECT COUNT( * ) FROM t] *)
Definition sqlCount : M nat :=
  let! t := rows in ret (length t).

(** [DELETE FROM t] *)
Definition sqlDeleteAll : M unit :=
  let! t := rows in store [].

(** [DROP TABLE IF EXISTS t] *)
Definition sqlDropTable : M unit := λ d, (Ok tt, with_table None d).

Definition engine_columns : list string :=
  ["_id"; "_extras"; "_createdAt"; "_updatedAt"].

(** The names of the columns of the hybrid table, as the engine compares
    them: without regard to the case of the letters. *)
Definition columnNames (columns : list (string * string)) : list string :=
  map toUpperCase (engine_columns ++ map fst columns).

(** [CREATE TABLE IF NOT EXISTS t (_id ..., columns, _extras ..., ...)]:
    an empty column list is a syntax error, and a table cannot be created
    with a column named twice. The names of the columns are written
    into the statement as they are; a name that the engine does not read
    as one name (a keyword, a name with a space or a sign) is outside the
    model. *)
Definition sqlCreateHybridTable (columns : list (string * string)) : M unit := λ d,
  match columns with
  | [] => (Err (BackingEngineFailure "syntax error"), d)
  | _ =>
      match table d with
      | Some _ => (Ok tt, d)
      | None =>
          if bool_decide (NoDup (columnNames columns))
          then (Ok tt, with_table (Some []) d)
          else (Err (BackingEngineFailure "duplicate column name"), d)
      end
  end.

(** [CREATE TABLE IF NOT EXISTS t (_id ..., _data ..., ...)] *)
Definition sqlCreateTable : M unit := λ d,
  match table d with
  | Some _ => (Ok tt, d)
  | None => (Ok tt, with_table (Some []) d)
  end.

Definition sqlBegin : M unit := λ d,
  match snapshot d with
  | Some _ => (Err (BackingEngineFailure "transaction within a transaction"), d)
  | None => (Ok tt, with_snapshot (Some (table d)) d)
  end.

Definition sqlCommit : M unit := λ d,
  match snapshot d with
  | Some _ => (Ok tt, with_snapshot None d)
  | None => (Err (BackingEngineFailure "no transaction is active"), d)
  end.

Definition sqlRollback : M unit := λ d,
  match snapshot d with
  | Some t => (Ok tt, with_snapshot None (with_table t d))
  | None => (Err (BackingEngineFailure "no transaction is active"), d)
  end.

Definition sqlVacuum : M unit := λ d,
  match snapshot d with
  | Some _ => (Err (BackingEngineFailure "cannot VACUUM within a transaction"), d)
  | None => (Ok tt, d)
  end.

Definition sqlAnalyze : M unit := ret tt.

(** What the engine does with a statement the caller wrote: the driver
    passes it on unread. *)
Record raw_engine := {
  raw_exec : string → option (list row) → result (option (list row));
  raw_prepare : string → result unit;
}.

(** *** Private helpers *)

(** [this.schema && this.dbType === 'sql'] *)
Definition isHybrid (d : SQLiteDriver) : bool :=
  match schema d, dbType d with
  | Some _, sql => true
  | _, _ => false
  end.

(** [ensureConnected] *)
Definition ensureConnected : M unit := λ d,
  if db d then (Ok tt, d) else (Err NotConnected, d).

(** [generateId], from the clock in milliseconds and the random suffix *)
Definition generateId (ms : Z) (rnd : string) : string :=
  pretty ms +:+ "_" +:+ rnd.

Fixpoint matchesEntries (record : value) (entries : list (string * value))
  : result bool :=
  match entries with
  | [] => Ok true
  | (key, v) :: entries' =>
      let* x := getProp record key in
      if negb (strictEq x v) then Ok false else matchesEntries record entries'
  end.

(** [matchesQuery] *)
Definition matchesQuery (record : value) (query : gmap string value)
  : result bool :=
  matchesEntries record (map_to_list query).

(** [Object.keys(query).length === 0] *)
Definition isEmptyQuery (query : gmap string value) : bool :=
  Nat.eqb (size query) 0.

(** [prepareValue] *)
Definition prepareValue (v : value) : value :=
  match v with
  | VNull | VUndefined => VNull
  | VBool b => VNum (Fin (if b then 1 else 0))
  | VArr _ | VObj _ => VStr (text_string (JSON_stringify v))
  | VNum _ | VStr _ | VBuffer _ => v
  end.

(** The cell a prepared value is bound to (see [bindParam_prepareValue]). *)
Definition toCell (v : value) : cell :=
  match bindParam (prepareValue v) with
  | Ok c => c
  | Err _ => CNull
  end.

Definition reserved : list string := ["_id"; "_createdAt"; "_updatedAt"].

(** [['_id', '_createdAt', '_updatedAt'].includes(key)] *)
Definition is_reserved (key : string) : bool := existsb (String.eqb key) reserved.
Global Arguments is_reserved : simpl never.

(** The members that every plain object inherits from [Object.prototype]. *)
Definition objectPrototype : list string :=
  ["constructor"; "hasOwnProperty"; "isPrototypeOf"; "propertyIsEnumerable";
   "toLocaleString"; "toString"; "valueOf"; "__proto__";
   "__defineGetter__"; "__defineSetter__"; "__lookupGetter__"; "__lookupSetter__"].

Definition inherited (key : string) : bool :=
  existsb (String.eqb key) objectPrototype.
Global Arguments inherited : simpl never.

(** [key in o], for a plain object [o]: an own property, or a member
    that the object inherits. *)
Definition hasProperty (o : gmap string value) (key : string) : bool :=
  bool_decide (is_Some (o !! key)) || inherited key.

(** [splitData]; the pair is [(schemaData, extraData)]. The definition
    of the schema is a plain object. *)
Definition splitData (schema : option schema_object) (data : gmap string value)
  : gmap string value * gmap string value :=
  match schema with
  | None => (∅, data)
  | Some s =>
      let definition := getDefinition s in
      map_fold (λ key v acc,
        if hasProperty definition key
        then (<[key := v]> acc.1, acc.2)
        else if negb (is_reserved key)
        then (acc.1, <[key := v]> acc.2)
        else acc) (∅, ∅) data
  end.

(** The object a [SELECT *] returns for a row, already taken apart as
    [const { _extras, ...rest } = row]: every column of the table is in
    it, NULL where the row was given no value. *)
Record row_object := {
  _extras : option text;
  rest : gmap string value;
}.

Definition select_star (columns : gset string) (r : row) : row_object :=
  {| _extras := r_payload r;
     rest := <["_id" := VStr (r_id r)]>
             (<["_createdAt" := VStr (r_createdAt r)]>
             (<["_updatedAt" := VStr (r_updatedAt r)]>
             ((cell_value <$> r_cols r) ∪ gset_to_gmap VNull columns))) |}.

(** The columns of the schema fields: the keys of the definition. *)
Definition schemaColumns (schema : option schema_object) : gset string :=
  match schema with
  | Some s => dom (getDefinition s)
  | None => ∅
  end.

(** The body of the loop of [mergeData] for one key of [rest]. *)
Definition castColumn (definition : gmap string value) (key : string) (v : value)
  : value :=
  if truthy (field definition key) then
    let type := field definition key in
    let type :=
      if jstype_eqb (typeof type) TyObject && truthy (field (ownProps type) "type")
      then field (ownProps type) "type" else type in
    if strictEq type (VStr "boolean") && jstype_eqb (typeof v) TyNumber
    then VBool (strictEq v (VNum (Fin 1)))
    else v
  else v.

(** [mergeData] *)
Definition mergeData (schema : option schema_object) (r : row_object) : value :=
  let extras :=
    match _extras r with
    | Some t =>
        if text_truthy t then
          match JSON_parse t with
          | Ok v => v
          | Err _ => VObj ∅
          end
        else VObj ∅
    | None => VObj ∅
    end in
  let rest :=
    match schema with
    | Some s => map_imap (λ key v, Some (castColumn (getDefinition s) key v)) (rest r)
    | None => rest r
    end in
  VObj (spread rest (ownProps extras)).

(** [JSON.parse(row._data)] *)
Definition parseData (r : row) : result value :=
  match r_payload r with
  | Some t => JSON_parse t
  | None => Ok VNull
  end.

(** *** Public methods *)

(** [setSchema] *)
Definition setSchema (s : option schema_object) : M unit := λ d,
  (Ok tt, {| db := db d; schema := s; dbType := sql;
             table := table d; snapshot := snapshot d |}).

(** [this.db = new Database(...)]: a new connection to the file, which
    is taken to open. It has no transaction, and it sees what is
    committed: the changes of a transaction that the connection before it
    left open are not there. *)
Definition newConnection (d : SQLiteDriver) : SQLiteDriver :=
  with_db true
    match snapshot d with
    | Some t => with_snapshot None (with_table t d)
    | None => d
    end.

(** [connect] *)
Definition connect : M unit := λ d,
  let d := newConnection d in
  match schema d, dbType d with
  | Some s, sql =>
      let columns :=
        map (λ kt : string * value, (kt.1, mapHawiahTypeToSQL kt.2))
            (map_to_list (getDefinition s)) in
      sqlCreateHybridTable columns d
  | _, _ => sqlCreateTable d
  end.

(** [disconnect]: closing rolls an open transaction back. *)
Definition disconnect : M unit := λ d,
  if db d then
    match snapshot d with
    | Some t => (Ok tt, with_db false (with_snapshot None (with_table t d)))
    | None => (Ok tt, with_db false d)
    end
  else (Ok tt, d).

(** [set], at the clock [ms] (milliseconds) and [now] (ISO text) *)
Definition set (ms : Z) (rnd now : string) (data : gmap string value) : M value :=
  ensureConnected ;;
  let id := generateId ms rnd in
  let record :=
    <["_updatedAt" := VStr now]>
      (<["_createdAt" := VStr now]> (<["_id" := VStr id]> data)) in
  (λ d,
    if isHybrid d then
      let '(schemaData, extraData) := splitData (schema d) record in
      (sqlPrepareColumns (schemaColumns (schema d)) (dom schemaData) ;;
       sqlInsert {| r_id := id;
                    r_cols := toCell <$> schemaData;
                    r_payload := Some (JSON_stringify (VObj extraData));
                    r_createdAt := now;
                    r_updatedAt := now |}) d
    else
      sqlInsert {| r_id := id;
                   r_cols := ∅;
                   r_payload := Some (JSON_stringify (VObj record));
                   r_createdAt := now;
                   r_updatedAt := now |} d) ;;
  ret (VObj record).

(** [get] *)
Definition get (query : gmap string value) : M (list value) :=
  ensureConnected ;;
  λ d,
    if isHybrid d then
      (let! rows := sqlSelectAll in
       let records := map (λ r, mergeData (schema d) (select_star (schemaColumns (schema d)) r)) rows in
       if negb (isEmptyQuery query)
       then lift (filterR (λ record, matchesQuery record query) records)
       else ret records) d
    else
      (let! allRows := sqlSelectAll in
       let! allRecords := lift (mapR parseData allRows) in
       if isEmptyQuery query then ret allRecords
       else lift (filterR (λ record, matchesQuery record query) allRecords)) d.

(** [getOne] *)
Definition getOne (query : gmap string value) : M value :=
  ensureConnected ;;
  if truthy (field query "_id") then
    λ d,
      if isHybrid d then
        (let! k := lift (bindParam (field query "_id")) in
         let! row := sqlSelectById k in
         ret match row with
             | Some r => mergeData (schema d) (select_star (schemaColumns (schema d)) r)
             | None => VNull
             end) d
      else
        (let! k := lift (bindParam (field query "_id")) in
         let! row := sqlSelectById k in
         match row with
         | Some r => lift (parseData r)
         | None => ret VNull
         end) d
  else
    let! results := get query in
    ret match results with
        | r :: _ => r
        | [] => VNull
        end.

(** [update], at the clock [stamps]: [stamps i] is the time when the
    record number [i] is rewritten. *)
Fixpoint updateLoop (stamps : nat → string) (data : gmap string value)
  (i : nat) (records : list value) : M nat :=
  match records with
  | [] => ret 0%nat
  | record :: records' =>
      let updatedRecord :=
        <["_updatedAt" := VStr (stamps i)]> (spread (ownProps record) data) in
      (λ d,
        if isHybrid d then
          let '(schemaData, extraData) := splitData (schema d) updatedRecord in
          (let! id := lift (getProp record "_id") in
           sqlPrepareColumns (schemaColumns (schema d)) (dom schemaData) ;;
           let! k := lift (bindParam (prepareValue id)) in
           sqlUpdate (λ r, {| r_id := r_id r;
                              r_cols := (toCell <$> schemaData) ∪ r_cols r;
                              r_payload := Some (JSON_stringify (VObj extraData));
                              r_createdAt := r_createdAt r;
                              r_updatedAt := stamps i |}) k) d
        else
          (let! id := lift (getProp record "_id") in
           let! k := lift (bindParam id) in
           sqlUpdate (λ r, {| r_id := r_id r;
                              r_cols := r_cols r;
                              r_payload := Some (JSON_stringify (VObj updatedRecord));
                              r_createdAt := r_createdAt r;
                              r_updatedAt := stamps i |}) k) d) ;;
      let! count := updateLoop stamps data (S i) records' in
      ret (S count)
  end.

Definition update (stamps : nat → string) (query data : gmap string value) : M nat :=
  ensureConnected ;;
  let! records := get query in
  updateLoop stamps data 0 records.

(** [delete] *)
Fixpoint deleteLoop (records : list value) : M nat :=
  match records with
  | [] => ret 0%nat
  | record :: records' =>
      (let! id := lift (getProp record "_id") in
       let! k := lift (bindParam id) in
       sqlDelete k) ;;
      let! count := deleteLoop records' in
      ret (S count)
  end.

Definition delete (query : gmap string value) : M nat :=
  ensureConnected ;;
  let! records := get query in
  deleteLoop records.

(** [exists] *)
Definition exists_ (query : gmap string value) : M bool :=
  ensureConnected ;;
  let! result := getOne query in
  ret (negb (strictEq result VNull)).

(** [count] *)
Definition count (query : gmap string value) : M nat :=
  ensureConnected ;;
  if isEmptyQuery query then sqlCount
  else
    let! results := get query in
    ret (length results).

(** [executeRaw] *)
Definition executeRaw (e : raw_engine) (statement : string) : M unit :=
  ensureConnected ;;
  λ d, match raw_exec e statement (table d) with
       | Ok t => (Ok tt, with_table t d)
       | Err err => (Err err, d)
       end.

(** [prepare] *)
Definition prepare (e : raw_engine) (statement : string) : M unit :=
  ensureConnected ;; lift (raw_prepare e statement).

(** [clear], [drop], [vacuum], [analyze] *)
Definition clear : M unit := ensureConnected ;; sqlDeleteAll.
Definition drop : M unit := ensureConnected ;; sqlDropTable.
Definition vacuum : M unit := ensureConnected ;; sqlVacuum.
Definition analyze : M unit := ensureConnected ;; sqlAnalyze.

(** [beginTransaction], [commit], [rollback] *)
Definition beginTransaction : M unit := ensureConnected ;; sqlBegin.
Definition commit : M unit := ensureConnected ;; sqlCommit.
Definition rollback : M unit := ensureConnected ;; sqlRollback.

(** Every operation that needs a connection, as one call. *)
Inductive call :=
| CallSet (ms : Z) (rnd now : string) (data : gmap string value)
| CallGet (query : gmap string value)
| CallGetOne (query : gmap string value)
| CallUpdate (stamps : nat → string) (query data : gmap string value)
| CallDelete (query : gmap string value)
| CallExists (query : gmap string value)
| CallCount (query : gmap string value)
| CallClear
| CallDrop
| CallVacuum
| CallAnalyze
| CallBeginTransaction
| CallCommit
| CallRollback
| CallExecuteRaw (statement : string)
| CallPrepare (statement : string).

Inductive answer :=
| ARecord (v : value)
| ARecords (l : list value)
| ANumber (n : nat)
| ABoolean (b : bool)
| AVoid.

Definition answering {A} (f : A → answer) (m : M A) : M answer :=
  let! a := m in ret (f a).

Definition invoke (e : raw_engine) (c : call) : M answer :=
  match c with
  | CallSet ms rnd now data => answering ARecord (set ms rnd now data)
  | CallGet query => answering ARecords (get query)
  | CallGetOne query => answering ARecord (getOne query)
  | CallUpdate stamps query data => answering ANumber (update stamps query data)
  | CallDelete query => answering ANumber (delete query)
  | CallExists query => answering ABoolean (exists_ query)
  | CallCount query => answering ANumber (count query)
  | CallClear => answering (λ _, AVoid) clear
  | CallDrop => answering (λ _, AVoid) drop
  | CallVacuum => answering (λ _, AVoid) vacuum
  | CallAnalyze => answering (λ _, AVoid) analyze
  | CallBeginTransaction => answering (λ _, AVoid) beginTransaction
  | CallCommit => answering (λ _, AVoid) commit
  | CallRollback => answering (λ _, AVoid) rollback
  | CallExecuteRaw statement => answering (λ _, AVoid) (executeRaw e statement)
  | CallPrepare statement => answering (λ _, AVoid) (prepare e statement)
  end.

(** ** The earlier driver, without schema support

    The first version of the file in the repository: every row is a
    JSON text. Only what the comparison with the later [update] needs. *)
Module Legacy.

Definition get (query : gmap string value) : M (list value) :=
  ensureConnected ;;
  if isEmptyQuery query then
    let! rows := sqlSelectAll in
    lift (mapR parseData rows)
  else
    let! rows := sqlSelectAll in
    let! allRecords := lift (mapR parseData rows) in
    lift (filterR (λ record, matchesQuery record query) allRecords).

Fixpoint updateLoop (stamps : nat → string) (data : gmap string value)
  (i : nat) (records : list value) : M nat :=
  match records with
  | [] => ret 0%nat
  | record :: records' =>
      let updatedRecord :=
        <["_updatedAt" := VStr (stamps i)]> (spread (ownProps record) data) in
      (let! id := lift (getProp record "_id") in
       let updatedRecord := <["_id" := id]> updatedRecord in
       let! createdAt := lift (getProp record "_createdAt") in
       let updatedRecord := <["_createdAt" := createdAt]> updatedRecord in
       let! k := lift (bindParam id) in
       sqlUpdate (λ r, {| r_id := r_id r;
                          r_cols := r_cols r;
                          r_payload := Some (JSON_stringify (VObj updatedRecord));
                          r_createdAt := r_createdAt r;
                          r_updatedAt := stamps i |}) k) ;;
      let! count := updateLoop stamps data (S i) records' in
      ret (S count)
  end.

Definition update (stamps : nat → string) (query data : gmap string value)
  : M nat :=
  ensureConnected ;;
  let! records := get query in
  updateLoop stamps data 0 records.

End Legacy.

(** ** Notions used by the properties *)

(** A row whose JSON text does not decode. *)
Definition corrupt (r : row) : bool :=
  match r_payload r with
  | Some (Garbled _) => true
  | _ => false
  end.

(** A row as the driver writes it: its JSON text decodes to an object. *)
Definition intact (r : row) : bool :=
  match r_payload r with
  | Some (JsonText (VObj _)) => true
  | _ => false
  end.

(** The row with the text of the empty mapping in place of a text that
    does not decode. *)
Definition repair (r : row) : row :=
  if corrupt r then
    {| r_id := r_id r; r_cols := r_cols r;
       r_payload := Some (JSON_stringify (VObj ∅));
       r_createdAt := r_createdAt r; r_updatedAt := r_updatedAt r |}
  else r.

(** A direct lookup by primary key: one statement that selects the row
    with the key [id]; the row is materialized as the mode of the driver
    requires, and no row gives [null]. *)
Definition primaryKeyLookup (id : value) : M value := λ d,
  (let! k := lift (bindParam id) in
   let! row := sqlSelectById k in
   match row with
   | Some r =>
       if isHybrid d
       then ret (mergeData (schema d) (select_star (schemaColumns (schema d)) r))
       else lift (parseData r)
   | None => ret VNull
   end) d.

(** A value that JSON represents as it is: [null], a boolean, a finite
    number, a string, and the arrays and objects of such values. *)
Fixpoint jsonSafe (v : value) : bool :=
  match v with
  | VNull | VBool _ | VStr _ | VNum (Fin _) => true
  | VUndefined | VNum _ | VBuffer _ => false
  | VArr l => forallb jsonSafe l
  | VObj o => map_fold (λ _ x acc, jsonSafe x && acc) true o
  end.

(** The size of a value, to reason by induction on nested values. *)
Fixpoint value_size (v : value) : nat :=
  match v with
  | VArr l => S (list_sum (map value_size l))
  | VObj o => S (map_fold (λ _ x acc, value_size x + acc)%nat 0%nat o)
  | _ => 1
  end.

(** The record that [set] builds from [data]. *)
Definition stamped (id now : string) (data : gmap string value)
  : gmap string value :=
  <["_updatedAt" := VStr now]>
    (<["_createdAt" := VStr now]> (<["_id" := VStr id]> data)).

(** ** Scenarios and sample data *)

(** A new driver on a new file. *)
Definition newDriver : SQLiteDriver :=
  {| db := false; schema := None; dbType := nosql;
     table := None; snapshot := None |}.

(** Insert, then read back by the key that [set] assigned. The pair is
    (what [set] returned, what [getOne] returned). *)
Definition insertThenRead (ms : Z) (rnd now : string) (data : gmap string value)
  : M (value * value) :=
  let! inserted := set ms rnd now data in
  let! id := lift (getProp inserted "_id") in
  let! back := getOne {["_id" := id]} in
  ret (inserted, back).

(** The round trip of section 8 of the specification: attach the schema,
    connect, insert, read back. *)
Definition hybridRoundTrip (s : schema_object) (ms : Z) (rnd now : string)
  (data : gmap string value) : M (value * value) :=
  setSchema (Some s) ;; connect ;; insertThenRead ms rnd now data.

(** [{a: NUMBER, b: BOOLEAN}], with the tags spelled as the specification
    spells them, and with the tags in lower case. *)
Definition schemaAB : schema_object :=
  Definition_ (<["a" := VStr "NUMBER"]> {["b" := VStr "BOOLEAN"]}).

Definition schemaAB_lower : schema_object :=
  Definition_ (<["a" := VStr "number"]> {["b" := VStr "boolean"]}).


(** [{a: 1, b: true, c: "x"}] *)
Definition recordABC : gmap string value :=
  <["a" := VNum (Fin 1)]> (<["b" := VBool true]> {["c" := VStr "x"]}).

Definition sampleTime : string := "2024-05-01T10:00:00.000Z".
Definition laterTime : string := "2024-05-02T11:30:00.000Z".

(** A connected driver without schema, on an empty table. *)
Definition connectedDriver : SQLiteDriver := snd (connect newDriver).

(** A connected driver without schema that holds one record,
    [{name: "Ada", role: "user"}], under the key [1714557600000_k3j9x]. *)
Definition oneRecordDriver : SQLiteDriver :=
  snd ((connect ;;
        set 1714557600000 "k3j9x" sampleTime
          (<["name" := VStr "Ada"]> {["role" := VStr "user"]}))
       newDriver).

Definition sampleId : string := "1714557600000_k3j9x".

(** The same record in a driver with the schema [{name: "string"}]. *)
Definition oneRecordHybridDriver : SQLiteDriver :=
  snd ((setSchema (Some (Definition_ {["name" := VStr "string"]})) ;;
        connect ;;
        set 1714557600000 "k3j9x" sampleTime
          (<["name" := VStr "Ada"]> {["role" := VStr "user"]}))
       newDriver).

(** [{_id: X, role: "admin"}], for the key [X] of the sample record. *)
Definition adminQuery : gmap string value :=
  <["_id" := VStr sampleId]> {["role" := VStr "admin"]}.

(** A patch that names the reserved fields. *)
Definition intrudingPatch : gmap string value :=
  <["_id" := VStr "intruder"]> {["_createdAt" := VStr "1999-01-01T00:00:00.000Z"]}.

(** Update, then read everything back. *)
Definition updateThenRead (stamps : nat → string) (query data : gmap string value)
  : M (list value) :=
  update stamps query data ;; get ∅.

Definition legacyUpdateThenRead (stamps : nat → string)
  (query data : gmap string value) : M (list value) :=
  Legacy.update stamps query data ;; get ∅.

(** A connected driver without schema whose only row holds a text that
    is not JSON, as a statement of the caller can leave it. *)
Definition corruptDriver : SQLiteDriver :=
  {| db := true; schema := None; dbType := nosql;
     table := Some [{| r_id := "r1"; r_cols := ∅;
                       r_payload := Some (Garbled "{oops");
                       r_createdAt := sampleTime; r_updatedAt := sampleTime |}];
     snapshot := None |}.

(** The same row in a driver with the schema [{name: "string"}]. *)
Definition corruptHybridDriver : SQLiteDriver :=
  {| db := true; schema := Some (Definition_ {["name" := VStr "string"]});
     dbType := sql;
     table := Some [{| r_id := "r1"; r_cols := {["name" := CText "Ada"]};
                       r_payload := Some (Garbled "{oops");
                       r_createdAt := sampleTime; r_updatedAt := sampleTime |}];
     snapshot := None |}.

(** A record with a binary field. *)
Definition recordWithBlob : gmap string value :=
  {["photo" := VBuffer "JPG"]}.

(** An engine that accepts every statement of the caller and changes
    nothing. *)
Definition idleEngine : raw_engine :=
  {| raw_exec := λ _ t, Ok t; raw_prepare := λ _, Ok tt |}.

(** ** What the methods leave behind

    The notions below describe the table before and after a call; the
    properties relate them to the methods above. *)

(** The record that a read hands out for the row [r]: the merged row
    with a schema, the decoded [_data] without one. *)
Definition materialize (d : SQLiteDriver) (r : row) : result value :=
  if isHybrid d
  then Ok (mergeData (schema d) (select_star (schemaColumns (schema d)) r))
  else parseData r.

Definition recordOf (d : SQLiteDriver) (r : row) : value :=
  match materialize d r with
  | Ok v => v
  | Err _ => VNull
  end.

(** The row reads as an object whose [_id] is the key of the row. *)
Definition keyedRow (d : SQLiteDriver) (r : row) : bool :=
  match materialize d r with
  | Ok (VObj o) => strictEq (field o "_id") (VStr (r_id r))
  | _ => false
  end.

(** Every row reads as an object that carries its own key, and no key
    is used twice: the state that the driver itself maintains. *)
Definition wellKeyed (d : SQLiteDriver) : Prop :=
  ∃ t, table d = Some t ∧ forallb (keyedRow d) t = true ∧ NoDup (map r_id t).

(** The record of the row has every field of [query], strictly equal. *)
Definition rowMatches (d : SQLiteDriver) (query : gmap string value) (r : row)
  : bool :=
  match materialize d r with
  | Ok (VObj o) =>
      forallb (λ kv, strictEq (field o kv.1) kv.2) (map_to_list query)
  | _ => false
  end.

Definition keyAmong (rs : list row) (r : row) : bool :=
  existsb (λ x, String.eqb (r_id x) (r_id r)) rs.

(** With a schema, the statement that writes [record] names a column
    that the table lacks: a field of the record goes to the schema fields
    under a name that is no key of the definition. *)
Definition namesMissingColumn (d : SQLiteDriver) (record : gmap string value)
  : bool :=
  isHybrid d
  && negb (bool_decide (dom (splitData (schema d) record).1
                        ⊆ schemaColumns (schema d))).

(** The row that [set] inserts for [data] under the key [id]. *)
Definition insertedRow (d : SQLiteDriver) (id now : string)
  (data : gmap string value) : row :=
  if isHybrid d then
    {| r_id := id;
       r_cols := toCell <$> (splitData (schema d) (stamped id now data)).1;
       r_payload :=
         Some (JSON_stringify (VObj (splitData (schema d) (stamped id now data)).2));
       r_createdAt := now; r_updatedAt := now |}
  else
    {| r_id := id; r_cols := ∅;
       r_payload := Some (JSON_stringify (VObj (stamped id now data)));
       r_createdAt := now; r_updatedAt := now |}.

(** The row that [update] writes over [r] without schema, for the record
    [record] that was read from it, the patch [data] and the time
    [stamp]. *)
Definition rewrittenRow (stamp : string) (data : gmap string value)
  (record : value) (r : row) : row :=
  let updatedRecord :=
    <["_updatedAt" := VStr stamp]> (spread (ownProps record) data) in
  {| r_id := r_id r;
     r_cols := r_cols r;
     r_payload := Some (JSON_stringify (VObj updatedRecord));
     r_createdAt := r_createdAt r;
     r_updatedAt := stamp |}.

(** The table after [update] without schema: every matching row
    rewritten in place, the matching row number [i] at the time
    [stamps i]. *)
Fixpoint rewriteRows (d : SQLiteDriver) (stamps : nat → string)
  (query data : gmap string value) (i : nat) (t : list row) : list row :=
  match t with
  | [] => []
  | r :: t' =>
      if rowMatches d query r
      then rewrittenRow (stamps i) data (recordOf d r) r
           :: rewriteRows d stamps query data (S i) t'
      else r :: rewriteRows d stamps query data i t'
  end.

(** The row [r] after the statements of [update] for the rows [rs], one
    after the other. *)
Fixpoint rewriteInTurn (d : SQLiteDriver) (stamps : nat → string)
  (data : gmap string value) (i : nat) (rs : list row) (r : row) : row :=
  match rs with
  | [] => r
  | x :: rs' =>
      rewriteInTurn d stamps data (S i) rs'
        (if String.eqb (r_id x) (r_id r)
         then rewrittenRow (stamps i) data (recordOf d x) r else r)
  end.

(** The connection, the schema, the mode and the open transaction are
    the same in [d'] as in [d]. *)
Definition sameConnection (d d' : SQLiteDriver) : Prop :=
  db d' = db d ∧ schema d' = schema d ∧ dbType d' = dbType d
  ∧ snapshot d' = snapshot d.

(** [d'] has the rows of [d], in the same order, with the same keys and
    the same creation times; nothing else of the driver differs. *)
Definition keepsRows (d d' : SQLiteDriver) : Prop :=
  db d' = db d ∧ schema d' = schema d ∧ dbType d' = dbType d
  ∧ snapshot d' = snapshot d
  ∧ match table d with
    | Some t => ∃ t', table d' = Some t'
                      ∧ map r_id t' = map r_id t
                      ∧ map r_createdAt t' = map r_createdAt t
    | None => table d' = None
    end.

(** The rows of [d'] are rows of [d], unchanged and in the same order;
    nothing else of the driver differs. *)
Definition onlyRemoves (d d' : SQLiteDriver) : Prop :=
  db d' = db d ∧ schema d' = schema d ∧ dbType d' = dbType d
  ∧ snapshot d' = snapshot d
  ∧ match table d with
    | Some t => ∃ t', table d' = Some t' ∧ sublist t' t
    | None => table d' = None
    end.


(** The character [c] does not occur in [s]. *)
Fixpoint free_of (c : ascii) (s : string) : bool :=
  match s with
  | EmptyString => true
  | String x s' => negb (Ascii.eqb x c) && free_of c s'
  end.

(** The calls that read or write records, the table or the statistics:
    every call but the three that delimit a transaction and the statement
    of the caller. *)
Definition dataCall (c : call) : bool :=
  match c with
  | CallBeginTransaction | CallCommit | CallRollback | CallExecuteRaw _ => false
  | _ => true
  end.

(** A caller that makes the calls one after the other and goes on when
    one throws. *)
Fixpoint runCalls (e : raw_engine) (calls : list call) (d : SQLiteDriver)
  : SQLiteDriver :=
  match calls with
  | [] => d
  | c :: calls' => runCalls e calls' (invoke e c d).2
  end.

(** The sample record [{name: "Ada", role: "user"}], the row that holds
    it in [oneRecordDriver], and a second record. *)
Definition sampleRecord : gmap string value :=
  <["name" := VStr "Ada"]> {["role" := VStr "user"]}.

Definition sampleRow : row :=
  insertedRow connectedDriver sampleId sampleTime sampleRecord.

Definition secondRecord : gmap string value :=
  <["name" := VStr "Grace"]> {["role" := VStr "admin"]}.

(** The driver of the sample record with a second row, whose text is
    the JSON [null]. *)
Definition nullRowDriver : SQLiteDriver :=
  {| db := true; schema := None; dbType := nosql;
     table := Some [sampleRow;
                    {| r_id := "r0"; r_cols := ∅;
                       r_payload := Some (JsonText VNull);
                       r_createdAt := sampleTime; r_updatedAt := sampleTime |}];
     snapshot := None |}.

(** A connected driver with the schema [{name: "string"}], on an empty
    table. *)
Definition connectedHybridDriver : SQLiteDriver :=
  snd ((setSchema (Some (Definition_ {["name" := VStr "string"]})) ;; connect)
       newDriver).

(** A driver whose schema has no field. *)
Definition emptySchemaDriver : SQLiteDriver :=
  snd (setSchema (Some (Definition_ ∅)) newDriver).

(** The clock of the sample updates. *)
Definition sampleStamps : nat → string := λ _, laterTime.

(** * Properties *)

(** ** Strings *)

Lemma app_nil (s : string) : EmptyString +:+ s = s.
Proof. reflexivity. Qed.

Lemma app_cons (c : ascii) (s t : string) : String c s +:+ t = String c (s +:+ t).
Proof. reflexivity. Qed.

Lemma prefix_app (needle hay : string) :
  String.prefix needle hay = true ↔ ∃ post, hay = needle +:+ post.
Proof.
  revert hay. induction needle as [|c needle IH]; intros hay.
  - split; [intros _; by exists hay | by destruct hay].
  - destruct hay as [|c' hay]; simpl.
    + split; [done | intros [post H]; discriminate].
    + setoid_rewrite app_cons.
      destruct (Ascii.ascii_dec c c') as [->|Hne].
      * rewrite IH. split; intros [post H]; exists post; congruence.
      * split; [done | intros [post H]; congruence].
Qed.

(** [includes] is the substring test. *)
Lemma includes_spec (hay needle : string) :
  includes hay needle = true ↔ ∃ pre post, hay = pre +:+ needle +:+ post.
Proof.
  induction hay as [|c hay IH].
  - change (includes EmptyString needle)
      with (String.prefix needle EmptyString || false).
    rewrite orb_false_r, prefix_app. split.
    + intros [post H]. by exists EmptyString, post.
    + intros [[|c pre] [post H]]; [by exists post | discriminate].
  - change (includes (String c hay) needle)
      with (String.prefix needle (String c hay) || includes hay needle).
    rewrite orb_true_iff, prefix_app, IH. split.
    + intros [[post H]|(pre & post & H)].
      * by exists EmptyString, post.
      * exists (String c pre), post. by rewrite app_cons, H.
    + intros [[|c' pre] [post H]].
      * left. by exists post.
      * right. exists pre, post. rewrite app_cons in H. congruence.
Qed.

(** The key of an array item is a numeral; it is never [type]. *)
Lemma pretty_N_go_not_t (x : N) (s s' : string) :
  s ≠ String "t" s' → pretty_N_go x s ≠ String "t" s'.
Proof.
  revert s. induction (N.lt_wf_0 x) as [x _ IH]; intros s Hs.
  destruct (decide (x = 0)%N) as [->|Hx].
  - by rewrite pretty_N_go_0.
  - rewrite pretty_N_go_step by lia. apply IH.
    + apply N.div_lt; lia.
    + unfold pretty_N_char. by repeat case_match.
Qed.

Lemma pretty_nat_not_type (i : nat) : pretty i ≠ "type".
Proof.
  unfold pretty, pretty_nat, pretty, pretty_N.
  case_decide; [done|]. by apply pretty_N_go_not_t.
Qed.

Lemma items_from_type (i : nat) (l : list value) :
  items_from i l !! "type" = None.
Proof.
  revert i. induction l as [|x l IH]; intros i; simpl; [done|].
  rewrite lookup_insert_ne by apply pretty_nat_not_type. apply IH.
Qed.

(** ** Values at the boundary of the engine *)

(** A prepared value is always one the binding accepts. *)
Lemma bindParam_prepareValue (v : value) :
  bindParam (prepareValue v) = Ok (toCell v).
Proof.
  unfold toCell. by destruct v as [| |b|[z| |neg]|s|bytes|items|props].
Qed.

Example prepareValue_boolean : prepareValue (VBool true) = VNum (Fin 1).
Proof. reflexivity. Qed.

Example prepareValue_array :
  prepareValue (VArr [VNum (Fin 1); VBool true; VUndefined; VNum NaN])
  = VStr "[1,true,null,null]".
Proof. vm_compute. reflexivity. Qed.

(** ** Type mapper *)

Lemma unwrap_normalized (descriptor : value) :
  toUpperCase (toString
    (if jstype_eqb (typeof descriptor) TyObject
        && negb (strictEq descriptor VNull)
        && truthy (field (ownProps descriptor) "type")
     then field (ownProps descriptor) "type"
     else descriptor))
  = normalized_tag descriptor.
Proof.
  destruct descriptor as [| |b|n|s|bytes|items|props]; try reflexivity.
  - simpl. unfold field. by rewrite items_from_type.
  - simpl. unfold normalized_tag. by destruct (truthy (field props "type")).
Qed.

Lemma rule_of_tag (t : string) :
  (if includes t "STRING" || includes t "TEXT" || includes t "EMAIL"
      || includes t "URL" || includes t "UUID" || includes t "CHAR" then "TEXT"
   else if includes t "NUMBER" then
     if includes t "INT" then "INTEGER" else "REAL"
   else if includes t "BOOLEAN" then "INTEGER"
   else if includes t "DATE" then "TEXT"
   else if includes t "BLOB" || includes t "BUFFER" then "BLOB"
   else "TEXT")
  = column_type_name (spec_column_type t).
Proof.
  unfold spec_column_type, contains_any. simpl. rewrite !orb_false_r, !orb_assoc.
  repeat match goal with |- context [includes t ?w] => destruct (includes t w) end;
    reflexivity.
Qed.

(** C5. The type mapper returns, for every descriptor, the name of the
    column type that the ordered substring rules of the specification give
    for the normalized tag (the descriptor, or its [type] field when it is
    a structured descriptor, in upper case); the name is one of TEXT,
    INTEGER, REAL and BLOB; and STRING gives TEXT, NUMBER gives REAL,
    [{type: "NUMBER_INT"}] gives INTEGER, BOOLEAN gives INTEGER and an
    unknown tag gives TEXT. Nothing is thrown: the mapper is a total
    function of its argument alone. *)
Theorem mapHawiahTypeToSQL_rules :
  (∀ descriptor,
     mapHawiahTypeToSQL descriptor
     = column_type_name (spec_column_type (normalized_tag descriptor)))
  ∧ (∀ descriptor,
       mapHawiahTypeToSQL descriptor ∈ ["TEXT"; "INTEGER"; "REAL"; "BLOB"])
  ∧ mapHawiahTypeToSQL (VStr "STRING") = "TEXT"
  ∧ mapHawiahTypeToSQL (VStr "NUMBER") = "REAL"
  ∧ mapHawiahTypeToSQL (VObj {["type" := VStr "NUMBER_INT"]}) = "INTEGER"
  ∧ mapHawiahTypeToSQL (VStr "BOOLEAN") = "INTEGER"
  ∧ mapHawiahTypeToSQL (VStr "UNKNOWN_TAG") = "TEXT".
Proof.
  assert (Hrule : ∀ descriptor,
     mapHawiahTypeToSQL descriptor
     = column_type_name (spec_column_type (normalized_tag descriptor))).
  { intros descriptor. unfold mapHawiahTypeToSQL. cbv zeta.
    rewrite unwrap_normalized. apply rule_of_tag. }
  split; [exact Hrule|]. split.
  - intros descriptor. rewrite Hrule.
    destruct (spec_column_type _); simpl; set_solver.
  - repeat split; vm_compute; reflexivity.
Qed.

(** ** Splitter *)


(** Where [splitData] puts each key of the record, with a schema. *)
Lemma splitData_lookup (s : schema_object) (data : gmap string value) (key : string) :
  (splitData (Some s) data).1 !! key
    = (if hasProperty (getDefinition s) key then data !! key else None)
  ∧ (splitData (Some s) data).2 !! key
    = (if hasProperty (getDefinition s) key || is_reserved key
       then None else data !! key).
Proof.
  unfold splitData. cbv zeta.
  revert key. apply (map_fold_weak_ind (λ acc m, ∀ key,
    acc.1 !! key
      = (if hasProperty (getDefinition s) key then m !! key else None)
    ∧ acc.2 !! key
      = (if hasProperty (getDefinition s) key || is_reserved key
         then None else m !! key))).
  - intros key. simpl. rewrite !lookup_empty.
    split; [by destruct (hasProperty _ _)|by destruct (_ || _)].
  - intros i x m acc Hi IH key. specialize (IH key).
    destruct IH as [IH1 IH2].
    destruct (decide (key = i)) as [->|Hne].
    + rewrite Hi in IH1, IH2. rewrite lookup_insert_eq.
      destruct (hasProperty (getDefinition s) i),
        (is_reserved i); simpl in *;
        rewrite ?lookup_insert_eq; split; congruence.
    + rewrite (lookup_insert_ne m), <- IH1, <- IH2 by done.
      destruct (hasProperty (getDefinition s) i),
        (is_reserved i); simpl;
        rewrite ?lookup_insert_ne by done; split; congruence.
Qed.






(** ** Round trip with a schema *)

(** With the tags in lower case the record comes back as it went in. *)
Lemma hybridRoundTrip_lower_case :
  (hybridRoundTrip schemaAB_lower 1714557600000 "k3j9x" sampleTime recordABC
     newDriver).1
  = Ok (VObj (<["_id" := VStr sampleId]>
              (<["_createdAt" := VStr sampleTime]>
              (<["_updatedAt" := VStr sampleTime]> recordABC))),
        VObj (<["_id" := VStr sampleId]>
              (<["_createdAt" := VStr sampleTime]>
              (<["_updatedAt" := VStr sampleTime]> recordABC)))).
Proof. vm_compute. reflexivity. Qed.

(** C1. With the schema [{a: "NUMBER", b: "BOOLEAN"}] attached, the
    record [{a: 1, b: true, c: "x"}] is inserted with [b] stored as 1, and
    read back by its key it has [b] equal to the number 1, not to [true]:
    [mergeData] compares the declared type with the lower-case word only,
    although the type mapper takes the tag in any case. *)
Theorem hybridRoundTrip_upper_case_tag :
  (hybridRoundTrip schemaAB 1714557600000 "k3j9x" sampleTime recordABC
     newDriver).1
  = Ok (VObj (<["_id" := VStr sampleId]>
              (<["_createdAt" := VStr sampleTime]>
              (<["_updatedAt" := VStr sampleTime]> recordABC))),
        VObj (<["b" := VNum (Fin 1)]>
              (<["_id" := VStr sampleId]>
              (<["_createdAt" := VStr sampleTime]>
              (<["_updatedAt" := VStr sampleTime]> recordABC)))))
  ∧ mapHawiahTypeToSQL (VStr "BOOLEAN") = mapHawiahTypeToSQL (VStr "boolean").
Proof. split; vm_compute; reflexivity. Qed.

(** ** Update and the reserved fields *)

(** C2. Without schema, an update whose patch names [_id] and
    [_createdAt] replaces both in the stored record: read back, the record
    has the values of the patch. The earlier driver, on the same store and
    the same patch, keeps the values the record had. *)
Theorem update_overwrites_reserved_fields :
  (get ∅ oneRecordDriver).1
  = Ok [VObj (<["_id" := VStr sampleId]>
              (<["_createdAt" := VStr sampleTime]>
              (<["_updatedAt" := VStr sampleTime]>
              (<["name" := VStr "Ada"]> {["role" := VStr "user"]}))))]
  ∧ (updateThenRead (λ _, laterTime) ∅ intrudingPatch oneRecordDriver).1
  = Ok [VObj (<["_id" := VStr "intruder"]>
              (<["_createdAt" := VStr "1999-01-01T00:00:00.000Z"]>
              (<["_updatedAt" := VStr laterTime]>
              (<["name" := VStr "Ada"]> {["role" := VStr "user"]}))))]
  ∧ (legacyUpdateThenRead (λ _, laterTime) ∅ intrudingPatch oneRecordDriver).1
  = Ok [VObj (<["_id" := VStr sampleId]>
              (<["_createdAt" := VStr sampleTime]>
              (<["_updatedAt" := VStr laterTime]>
              (<["name" := VStr "Ada"]> {["role" := VStr "user"]}))))].
Proof. repeat split; vm_compute; reflexivity. Qed.

(** With a schema the same patch leaves both fields as they were: the
    splitter drops the reserved fields and the statement never writes
    their columns. *)
Lemma update_hybrid_keeps_reserved_fields :
  (updateThenRead (λ _, laterTime) ∅ intrudingPatch oneRecordHybridDriver).1
  = Ok [VObj (<["_id" := VStr sampleId]>
              (<["_createdAt" := VStr sampleTime]>
              (<["_updatedAt" := VStr laterTime]>
              (<["name" := VStr "Ada"]> {["role" := VStr "user"]}))))].
Proof. vm_compute. reflexivity. Qed.

(** ** One record or many *)

(** C3. On the filter [{_id: X, role: "admin"}], where the record with
    key [X] has the role "user", [get] finds no record but [getOne]
    returns that record, and [exists] answers [true]. *)
Theorem getOne_differs_from_get :
  (get adminQuery oneRecordDriver).1 = Ok []
  ∧ (getOne adminQuery oneRecordDriver).1
    = Ok (VObj (<["_id" := VStr sampleId]>
                (<["_createdAt" := VStr sampleTime]>
                (<["_updatedAt" := VStr sampleTime]>
                (<["name" := VStr "Ada"]> {["role" := VStr "user"]})))))
  ∧ (exists_ adminQuery oneRecordDriver).1 = Ok true.
Proof. repeat split; vm_compute; reflexivity. Qed.

(** ** The connection guard *)

Lemma ensureConnected_closed (d : SQLiteDriver) :
  db d = false → ensureConnected d = (Err NotConnected, d).
Proof. intros H. unfold ensureConnected. by rewrite H. Qed.

Lemma ensureConnected_open (d : SQLiteDriver) :
  db d = true → ensureConnected d = (Ok tt, d).
Proof. intros H. unfold ensureConnected. by rewrite H. Qed.

Lemma guarded_closed {A} (k : M A) (d : SQLiteDriver) :
  db d = false → (ensureConnected ;; k) d = (Err NotConnected, d).
Proof. intros H. unfold andThen. by rewrite ensureConnected_closed. Qed.

Lemma guarded_open {A} (k : M A) (d : SQLiteDriver) :
  db d = true → (ensureConnected ;; k) d = k d.
Proof. intros H. unfold andThen. by rewrite ensureConnected_open. Qed.

(** C9. While the driver is not connected, every operation that needs
    a connection throws [NotConnected] and leaves the driver, the table
    included, as it was; a new driver is not connected, and a driver is
    not connected after [disconnect]. *)
Theorem disconnected_calls_fail :
  (∀ (e : raw_engine) (c : call) (d : SQLiteDriver),
     db d = false → invoke e c d = (Err NotConnected, d))
  ∧ db newDriver = false
  ∧ (∀ d : SQLiteDriver, db (disconnect d).2 = false).
Proof.
  split_and!.
  - intros e c d H.
    destruct c; unfold invoke, answering; unfold andThen at 1;
      [unfold set|unfold get|unfold getOne|unfold update|unfold delete
      |unfold exists_|unfold count|unfold clear|unfold drop|unfold vacuum
      |unfold analyze|unfold beginTransaction|unfold commit|unfold rollback
      |unfold executeRaw|unfold prepare];
      by rewrite guarded_closed.
  - reflexivity.
  - intros d. unfold disconnect.
    destruct (db d) eqn:H; [by destruct (snapshot d)|done].
Qed.

Lemma disconnected_calls_fail_witness :
  db newDriver = false
  ∧ invoke idleEngine (CallSet 1714557600000 "k3j9x" sampleTime recordABC) newDriver
    = (Err NotConnected, newDriver).
Proof.
  split; [reflexivity|].
  apply (proj1 disconnected_calls_fail). reflexivity.
Defined.

(** ** Reading *)

Lemma mapR_length {A B} (f : A → result B) (l : list A) (bs : list B) :
  mapR f l = Ok bs → length bs = length l.
Proof.
  revert bs. induction l as [|a l IH]; intros bs; simpl.
  - by intros [= <-].
  - destruct (f a) as [b|e]; simpl; [|done].
    destruct (mapR f l) as [bs'|e]; simpl; [|done].
    intros [= <-]. simpl. f_equal. by apply IH.
Qed.

(** Matching a filter against an object never throws. *)
Lemma matchesEntries_object (o : gmap string value)
  (entries : list (string * value)) :
  ∃ b, matchesEntries (VObj o) entries = Ok b.
Proof.
  induction entries as [|[key v] entries IH]; simpl; [by exists true|].
  destruct (negb _); [by exists false|done].
Qed.

Lemma filterR_objects (query : gmap string value) (os : list (gmap string value)) :
  ∃ rs, filterR (λ record, matchesQuery record query) (map VObj os) = Ok rs.
Proof.
  induction os as [|o os [rs IH]]; simpl; [by eexists|].
  unfold matchesQuery at 1.
  destruct (matchesEntries_object o (map_to_list query)) as [b ->]. simpl.
  rewrite IH. simpl. by eexists.
Qed.

Lemma mergeData_object (schema : option schema_object) (r : row_object) :
  ∃ o, mergeData schema r = VObj o.
Proof. unfold mergeData. by eexists. Qed.

Lemma merged_objects (schema : option schema_object) (cols : gset string)
  (t : list row) :
  ∃ os, map (λ r, mergeData schema (select_star cols r)) t = map VObj os.
Proof.
  induction t as [|r t [os IH]]; simpl; [by exists []|].
  destruct (mergeData_object schema (select_star cols r)) as [o Ho].
  exists (o :: os). simpl. by rewrite Ho, IH.
Qed.

(** With a schema, [get] returns whenever the driver is connected and
    the table exists. *)
Lemma get_hybrid_returns (query : gmap string value) (d : SQLiteDriver) :
  isHybrid d = true → db d = true → is_Some (table d) →
  ∃ results, get query d = (Ok results, d).
Proof.
  intros Hh Hdb [t Ht]. unfold get. rewrite guarded_open by done.
  rewrite Hh. unfold sqlSelectAll, andThen, rows, ret, lift. rewrite Ht.
  destruct (negb (isEmptyQuery query)); [|by eexists].
  destruct (merged_objects (schema d) (schemaColumns (schema d)) t) as [os ->].
  destruct (filterR_objects query os) as [rs ->]. by eexists.
Qed.

Lemma isHybrid_with_table (t : option (list row)) (d : SQLiteDriver) :
  isHybrid (with_table t d) = isHybrid d.
Proof. reflexivity. Qed.

Lemma mapR_parseData_intact (t : list row) :
  forallb intact t = true → ∃ os, mapR parseData t = Ok (map VObj os).
Proof.
  induction t as [|r t IH]; simpl; [by exists []|].
  intros [Hr Ht]%andb_true_iff. destruct (IH Ht) as [os ->].
  unfold parseData, intact in *.
  destruct (r_payload r) as [[[| | | | | | |o]|]|]; try done.
  by exists (o :: os).
Qed.

(** On a table as the driver writes it, [get] returns. *)
Lemma get_returns (query : gmap string value) (d : SQLiteDriver) (t : list row) :
  db d = true → table d = Some t → forallb intact t = true →
  ∃ results, get query d = (Ok results, d).
Proof.
  intros Hdb Ht Hi. destruct (isHybrid d) eqn:Hh.
  - apply get_hybrid_returns; [done..|]. by rewrite Ht.
  - unfold get. rewrite guarded_open by done. rewrite Hh.
    unfold sqlSelectAll, andThen, rows, ret, lift. rewrite Ht.
    destruct (mapR_parseData_intact t Hi) as [os ->].
    destruct (isEmptyQuery query); [by eexists|].
    destruct (filterR_objects query os) as [rs ->]. by eexists.
Qed.

(** On a table with a row whose text is not JSON, [count] of the empty
    filter returns the number of rows while [get] of the empty filter
    throws: the count is not the length of what [get] returns. *)
Lemma count_without_records :
  count ∅ corruptDriver = (Ok 1%nat, corruptDriver)
  ∧ get ∅ corruptDriver = (Err SyntaxError, corruptDriver)
  ∧ ¬ (∃ records, (get ∅ corruptDriver).1 = Ok records
                   ∧ (count ∅ corruptDriver).1 = Ok (length records)).
Proof.
  split_and!; [vm_compute; reflexivity..|].
  intros (records & H & _). vm_compute in H. discriminate.
Qed.

(** C7 (amended). Whenever [get] returns the records of a filter,
    [count] on that filter returns their number and leaves the same
    driver, for the empty filter (where [count] asks the engine for the
    number of rows) as for any other; [get] does return on a connected
    driver whose table holds rows as the driver writes them. Where [get]
    throws, [count] of a filter with a field throws the same, while
    [count] of the empty filter still returns the number of rows of the
    table. And [exists] answers [true] exactly when [getOne] returns
    something other than [null], and throws what [getOne] throws. *)
Theorem count_exists_consistent (query : gmap string value) (d : SQLiteDriver) :
  (∀ results d', get query d = (Ok results, d') →
     count query d = (Ok (length results), d'))
  ∧ (∀ t, db d = true → table d = Some t → forallb intact t = true →
       ∃ results, get query d = (Ok results, d)
                  ∧ count query d = (Ok (length results), d))
  ∧ (∀ e d', isEmptyQuery query = false → get query d = (Err e, d') →
       count query d = (Err e, d'))
  ∧ (∀ t, isEmptyQuery query = true → db d = true → table d = Some t →
       count query d = (Ok (length t), d))
  ∧ exists_ query d
    = (match (getOne query d).1 with
       | Ok r => Ok (negb (strictEq r VNull))
       | Err e => Err e
       end, (getOne query d).2).
Proof.
  assert (Hcount : ∀ results d', get query d = (Ok results, d') →
     count query d = (Ok (length results), d')).
  { intros results d' Hget.
    destruct (db d) eqn:Hdb.
    2:{ unfold get in Hget. by rewrite guarded_closed in Hget. }
    unfold count. rewrite guarded_open by done.
    destruct (isEmptyQuery query) eqn:Hq.
    - unfold get in Hget. rewrite guarded_open in Hget by done.
      unfold sqlCount, sqlSelectAll, andThen, rows, ret, lift in *.
      rewrite Hq in Hget. simpl in Hget.
      destruct (table d) as [t|]; [|by destruct (isHybrid d)].
      destruct (isHybrid d).
      + injection Hget as <- <-. by rewrite length_map.
      + destruct (mapR parseData t) as [rs|e] eqn:Hmap; [|done].
        injection Hget as <- <-. by rewrite (mapR_length _ _ _ Hmap).
    - unfold andThen. by rewrite Hget. }
  split_and!.
  - exact Hcount.
  - intros t Hdb Ht Hi.
    destruct (get_returns query d t Hdb Ht Hi) as [results H].
    exists results. split; [done|]. by apply Hcount.
  - intros e d' Hq Hget.
    destruct (db d) eqn:Hdb.
    + unfold count. rewrite guarded_open, Hq by done.
      unfold andThen. by rewrite Hget.
    + unfold get in Hget. rewrite guarded_closed in Hget by done.
      injection Hget as <- <-.
      unfold count. by rewrite guarded_closed.
  - intros t Hq Hdb Ht. unfold count. rewrite guarded_open, Hq by done.
    unfold sqlCount, andThen, rows, ret. by rewrite Ht.
  - unfold exists_.
    destruct (db d) eqn:Hdb.
    + rewrite guarded_open by done. unfold andThen.
      by destruct (getOne query d) as [[r|e] d'].
    + rewrite guarded_closed by done. unfold getOne.
      by rewrite guarded_closed.
Qed.

Lemma count_exists_consistent_witness :
  get ∅ oneRecordDriver
  = (Ok [VObj (stamped sampleId sampleTime
                 (<["name" := VStr "Ada"]> {["role" := VStr "user"]}))],
     oneRecordDriver)
  ∧ count ∅ oneRecordDriver = (Ok 1%nat, oneRecordDriver).
Proof.
  assert (H : get ∅ oneRecordDriver
    = (Ok [VObj (stamped sampleId sampleTime
                   (<["name" := VStr "Ada"]> {["role" := VStr "user"]}))],
       oneRecordDriver)) by (vm_compute; reflexivity).
  split; [exact H|].
  exact (proj1 (count_exists_consistent ∅ oneRecordDriver) _ _ H).
Defined.

(** ** Texts that do not decode *)

Lemma mergeData_repair (schema : option schema_object) (cols : gset string)
  (r : row) :
  mergeData schema (select_star cols (repair r))
  = mergeData schema (select_star cols r).
Proof.
  unfold repair, corrupt. destruct (r_payload r) as [[j|s]|] eqn:Hp; try reflexivity.
  unfold mergeData, select_star. simpl. rewrite Hp. simpl.
  by destruct (negb (String.eqb s EmptyString)).
Qed.

Lemma key_matches_repair (k : cell) (r : row) :
  key_matches k (repair r) = key_matches k r.
Proof. unfold repair. by destruct (corrupt r). Qed.

Lemma find_repair (k : cell) (t : list row) :
  List.find (key_matches k) (map repair t)
  = repair <$> List.find (key_matches k) t.
Proof.
  induction t as [|r t IH]; simpl; [done|].
  rewrite key_matches_repair. by destruct (key_matches k r).
Qed.

Lemma get_hybrid_repair (query : gmap string value) (d : SQLiteDriver) :
  isHybrid d = true →
  (get query d).1 = (get query (with_table (map repair <$> table d) d)).1.
Proof.
  intros Hh. unfold get. destruct (db d) eqn:Hdb.
  2:{ by rewrite !guarded_closed. }
  rewrite !guarded_open by done. rewrite isHybrid_with_table, Hh.
  unfold sqlSelectAll, andThen, rows, ret, lift. simpl.
  destruct (table d) as [t|]; simpl; [|done].
  rewrite map_map.
  rewrite (map_ext _ _
    (λ r, mergeData_repair (schema d) (schemaColumns (schema d)) r)).
  by destruct (negb (isEmptyQuery query)).
Qed.

Lemma getOne_hybrid_repair (query : gmap string value) (d : SQLiteDriver) :
  isHybrid d = true →
  (getOne query d).1
  = (getOne query (with_table (map repair <$> table d) d)).1.
Proof.
  intros Hh. unfold getOne. destruct (db d) eqn:Hdb.
  2:{ by rewrite !guarded_closed. }
  rewrite !guarded_open by done.
  destruct (truthy (field query "_id")).
  - rewrite isHybrid_with_table, Hh.
    unfold sqlSelectById, andThen, rows, ret, lift. simpl.
    destruct (bindParam (field query "_id")) as [k|e]; [|done].
    destruct (table d) as [t|]; simpl; [|done].
    rewrite find_repair.
    destruct (List.find (key_matches k) t) as [r|]; simpl; [|done].
    by rewrite mergeData_repair.
  - unfold andThen, ret.
    pose proof (get_hybrid_repair query d Hh) as H.
    destruct (get query d) as [[rs|e] d1],
      (get query (with_table (map repair <$> table d) d)) as [[rs'|e'] d2];
      simpl in *; try congruence.
    by injection H as ->.
Qed.

Lemma parseData_corrupt (r : row) :
  corrupt r = true → parseData r = Err SyntaxError.
Proof.
  unfold parseData, corrupt. by destruct (r_payload r) as [[j|s]|].
Qed.

Lemma parseData_intact (r : row) :
  corrupt r = false → ∃ v, parseData r = Ok v.
Proof.
  unfold parseData, corrupt.
  destruct (r_payload r) as [[j|s]|]; [|done|]; by eexists.
Qed.

Lemma mapR_parseData_corrupt (t : list row) :
  existsb corrupt t = true → mapR parseData t = Err SyntaxError.
Proof.
  induction t as [|r t IH]; simpl; [done|].
  destruct (corrupt r) eqn:Hr; simpl.
  - intros _. by rewrite parseData_corrupt.
  - intros H. destruct (parseData_intact r Hr) as [v ->]. simpl.
    by rewrite IH.
Qed.

(** Without schema, [get] and [getOne] throw the decode error of a
    [_data] text that is not JSON; no empty record stands in for it. *)
Lemma corrupt_data_fails_read :
  get ∅ corruptDriver = (Err SyntaxError, corruptDriver)
  ∧ getOne {["_id" := VStr "r1"]} corruptDriver = (Err SyntaxError, corruptDriver)
  ∧ ¬ (∃ records, (get ∅ corruptDriver).1 = Ok records).
Proof.
  split_and!; [vm_compute; reflexivity..|].
  intros [records H]. vm_compute in H. discriminate.
Qed.

(** C4 (amended). With a schema, a read takes an [_extras] text that
    does not decode for the empty mapping: [get] and [getOne] return what
    they return on the table in which each such text is replaced by the
    text of the empty mapping, and [get] returns on every connected driver
    whose table exists. Without a schema, a [_data] text that does not
    decode makes [get] throw the decode error, and [getOne] too when it
    looks up the key of such a row. *)
Theorem corrupt_payload_on_read :
  (∀ query d, isHybrid d = true →
     (get query d).1 = (get query (with_table (map repair <$> table d) d)).1
     ∧ (getOne query d).1
       = (getOne query (with_table (map repair <$> table d) d)).1)
  ∧ (∀ query d, isHybrid d = true → db d = true → is_Some (table d) →
       ∃ results, get query d = (Ok results, d))
  ∧ (∀ query d t, isHybrid d = false → db d = true → table d = Some t →
       existsb corrupt t = true → get query d = (Err SyntaxError, d))
  ∧ (∀ query d t s r,
       isHybrid d = false → db d = true → table d = Some t →
       field query "_id" = VStr s → s ≠ EmptyString →
       List.find (key_matches (CText s)) t = Some r → corrupt r = true →
       getOne query d = (Err SyntaxError, d)).
Proof.
  split_and!.
  - intros query d Hh. split.
    + by apply get_hybrid_repair.
    + by apply getOne_hybrid_repair.
  - apply get_hybrid_returns.
  - intros query d t Hh Hdb Ht Hc. unfold get.
    rewrite guarded_open by done. rewrite Hh.
    unfold sqlSelectAll, andThen, rows, ret, lift. rewrite Ht.
    by rewrite mapR_parseData_corrupt.
  - intros query d t s r Hh Hdb Ht Hid Hs Hfind Hc. unfold getOne.
    rewrite guarded_open by done. rewrite Hid. simpl.
    destruct (String.eqb_spec s EmptyString) as [|_]; [done|]. simpl.
    rewrite Hh. unfold sqlSelectById, andThen, rows, ret, lift. simpl.
    rewrite Ht, Hfind. by rewrite parseData_corrupt.
Qed.

Lemma corrupt_payload_on_read_witness :
  (get ∅ corruptHybridDriver).1
  = (get ∅ (with_table (map repair <$> table corruptHybridDriver)
              corruptHybridDriver)).1
  ∧ (∃ results, get ∅ corruptHybridDriver = (Ok results, corruptHybridDriver))
  ∧ get ∅ corruptDriver = (Err SyntaxError, corruptDriver)
  ∧ getOne {["_id" := VStr "r1"]} corruptDriver = (Err SyntaxError, corruptDriver).
Proof.
  destruct corrupt_payload_on_read as (H1 & H2 & H3 & H4). split_and!.
  - apply H1. reflexivity.
  - apply H2; [reflexivity|reflexivity|]. vm_compute. eauto.
  - eapply (H3 ∅ corruptDriver); reflexivity.
  - eapply (H4 _ corruptDriver _ "r1"); try reflexivity. discriminate.
Defined.

(** ** Lookup by key *)

Lemma field_singleton (k : string) (v : value) : field {[k := v]} k = v.
Proof. unfold field. by rewrite lookup_singleton_eq. Qed.

(** With a truthy [_id] in the filter, [getOne] is the guarded lookup by
    that key. *)
Lemma getOne_by_key (query : gmap string value) (d : SQLiteDriver) :
  truthy (field query "_id") = true →
  getOne query d = (ensureConnected ;; primaryKeyLookup (field query "_id")) d.
Proof.
  intros H. unfold getOne. rewrite H.
  destruct (db d) eqn:Hdb; [|by rewrite !guarded_closed].
  rewrite !guarded_open by done. unfold primaryKeyLookup.
  destruct (isHybrid d); [|done].
  unfold sqlSelectById, andThen, rows, ret, lift.
  destruct (bindParam (field query "_id")) as [k|e]; [|done].
  destruct (table d) as [t|]; [|done].
  by destruct (List.find (key_matches k) t).
Qed.



(** ** Round trip without schema *)

Lemma value_size_item (x : value) (l : list value) :
  In x l → (value_size x < value_size (VArr l))%nat.
Proof.
  change (value_size (VArr l)) with (S (list_sum (map value_size l))).
  induction l as [|y l IH]; simpl; [done|].
  intros [->|H]; [lia|]. specialize (IH H). lia.
Qed.

Lemma value_size_prop (o : gmap string value) (k : string) (x : value) :
  o !! k = Some x → (value_size x < value_size (VObj o))%nat.
Proof.
  intros H.
  change (value_size (VObj o))
    with (S (map_fold (λ _ x acc, value_size x + acc)%nat 0%nat o)).
  rewrite (map_fold_delete_L _ _ k x o); [lia| |done].
  intros. lia.
Qed.

Lemma jsonSafe_prop (o : gmap string value) (k : string) (x : value) :
  jsonSafe (VObj o) = true → o !! k = Some x → jsonSafe x = true.
Proof.
  intros Hs H.
  change (jsonSafe (VObj o))
    with (map_fold (λ _ x acc, jsonSafe x && acc) true o) in Hs.
  rewrite (map_fold_delete_L _ _ k x o) in Hs; [| |done].
  - by apply andb_true_iff in Hs as [? _].
  - intros. by rewrite !andb_assoc, (andb_comm (jsonSafe z1)).
Qed.

Lemma jsonSafe_props (o : gmap string value) :
  (∀ k x, o !! k = Some x → jsonSafe x = true) → jsonSafe (VObj o) = true.
Proof.
  change (jsonSafe (VObj o))
    with (map_fold (λ _ x acc, jsonSafe x && acc) true o).
  apply (map_fold_weak_ind (λ acc m,
    (∀ k x, m !! k = Some x → jsonSafe x = true) → acc = true)).
  - done.
  - intros k x m acc Hk IH H.
    rewrite (H k x) by apply lookup_insert_eq. simpl.
    apply IH. intros k' x' Hk'. apply (H k').
    rewrite lookup_insert_ne; [done|]. intros ->. congruence.
Qed.

Lemma toJSON_safe_bounded (n : nat) (v : value) :
  (value_size v < n)%nat → jsonSafe v = true → toJSON v = Some v.
Proof.
  revert v. induction n as [|n IH]; intros v Hn Hs; [lia|].
  destruct v as [| |b|[z| |neg]|s|bytes|items|props]; try done.
  - change (toJSON (VArr items))
      with (Some (VArr (map (λ x, default VNull (toJSON x)) items))).
    do 2 f_equal. rewrite <- (map_id items) at 2. apply map_ext_in.
    intros x Hx. rewrite IH; [done| |].
    + pose proof (value_size_item x items Hx). lia.
    + change (jsonSafe (VArr items)) with (forallb jsonSafe items) in Hs.
      rewrite forallb_forall in Hs. by apply Hs.
  - change (toJSON (VObj props)) with (Some (VObj (omap toJSON props))).
    do 2 f_equal. apply map_eq. intros k. rewrite lookup_omap.
    destruct (props !! k) as [x|] eqn:Hk; [|done]. simpl.
    apply IH.
    + pose proof (value_size_prop props k x Hk). lia.
    + by apply (jsonSafe_prop props k).
Qed.

(** A value that JSON represents as it is is written as itself. *)
Lemma toJSON_safe (v : value) : jsonSafe v = true → toJSON v = Some v.
Proof. apply (toJSON_safe_bounded (S (value_size v))). lia. Qed.

Lemma parse_stringify_safe (v : value) :
  jsonSafe v = true → JSON_parse (JSON_stringify v) = Ok v.
Proof. intros H. unfold JSON_stringify. by rewrite toJSON_safe. Qed.

(** The key that [generateId] makes is never the empty text. *)
Lemma generateId_truthy (ms : Z) (rnd : string) :
  truthy (VStr (generateId ms rnd)) = true.
Proof.
  unfold generateId. simpl.
  destruct (pretty ms) as [|c s]; by rewrite ?app_nil, ?app_cons.
Qed.

Lemma find_appended (id : string) (t : list row) (r : row) :
  existsb (λ x, String.eqb (r_id x) id) t = false → r_id r = id →
  List.find (key_matches (CText id)) (t ++ [r]) = Some r.
Proof.
  intros Ht Hr. induction t as [|x t IH]; simpl in *.
  - by rewrite Hr, String.eqb_refl.
  - apply orb_false_iff in Ht as [Hx Ht].
    rewrite String.eqb_sym, Hx. by apply IH.
Qed.

Lemma stamped_safe (id now : string) (data : gmap string value) :
  jsonSafe (VObj data) = true → jsonSafe (VObj (stamped id now data)) = true.
Proof.
  intros H. apply jsonSafe_props. intros k x. unfold stamped.
  rewrite !lookup_insert_Some.
  intros [[_ <-]|[_ [[_ <-]|[_ [[_ <-]|[_ Hk]]]]]]; try done.
  by apply (jsonSafe_prop data k).
Qed.

(** A record with a binary field does not come back as it went in: the
    buffer comes back as the object that JSON writes for it. *)
Lemma blob_not_restored :
  (insertThenRead 1714557600000 "k3j9x" sampleTime recordWithBlob
     connectedDriver).1
  = Ok (VObj (stamped sampleId sampleTime {["photo" := VBuffer "JPG"]}),
        VObj (stamped sampleId sampleTime
                {["photo" := VObj (<["type" := VStr "Buffer"]>
                     {["data" := VArr [VNum (Fin 74); VNum (Fin 80);
                                       VNum (Fin 71)]]})]}))
  ∧ ¬ (∃ record,
         (insertThenRead 1714557600000 "k3j9x" sampleTime recordWithBlob
            connectedDriver).1
         = Ok (record, record)).
Proof.
  assert (H : (insertThenRead 1714557600000 "k3j9x" sampleTime recordWithBlob
                 connectedDriver).1
    = Ok (VObj (stamped sampleId sampleTime {["photo" := VBuffer "JPG"]}),
          VObj (stamped sampleId sampleTime
                  {["photo" := VObj (<["type" := VStr "Buffer"]>
                       {["data" := VArr [VNum (Fin 74); VNum (Fin 80);
                                         VNum (Fin 71)]]})]})))
    by (vm_compute; reflexivity).
  split; [exact H|]. intros [record Hr]. rewrite H in Hr.
  injection Hr as H1 H2. rewrite <- H1 in H2.
  apply (f_equal (λ v, match v with
                       | VObj o => o !! "photo"
                       | _ => None
                       end)) in H2.
  vm_compute in H2. discriminate.
Qed.

(** C8 (amended). Without schema and connected, for a record whose
    values JSON represents as they are, and a key that no row has yet,
    [set] returns the record with [_id], [_createdAt] and [_updatedAt]
    added, and [getOne] on that key returns the same record. *)
Theorem nosql_roundtrip (d : SQLiteDriver) (t : list row) (ms : Z)
  (rnd now : string) (data : gmap string value) :
  db d = true → schema d = None → table d = Some t →
  existsb (λ r, String.eqb (r_id r) (generateId ms rnd)) t = false →
  jsonSafe (VObj data) = true →
  let id := generateId ms rnd in
  let record :=
    <["_updatedAt" := VStr now]>
      (<["_createdAt" := VStr now]> (<["_id" := VStr id]> data)) in
  ∃ d', set ms rnd now data d = (Ok (VObj record), d')
        ∧ getOne {["_id" := VStr id]} d' = (Ok (VObj record), d').
Proof.
  intros Hdb Hschema Ht Hfresh Hsafe id record.
  assert (Hh : isHybrid d = false) by (unfold isHybrid; by rewrite Hschema).
  eexists. split.
  - unfold set. rewrite guarded_open by done.
    unfold andThen at 1. rewrite Hh.
    unfold sqlInsert, andThen, rows, store, ret. rewrite Ht. simpl.
    fold id. unfold id in *. rewrite Hfresh. reflexivity.
  - rewrite getOne_by_key by (rewrite field_singleton; apply generateId_truthy).
    rewrite guarded_open by done. rewrite field_singleton.
    unfold primaryKeyLookup, sqlSelectById, andThen, rows, ret, lift.
    cbn [bindParam bindValue table with_table].
    erewrite find_appended; [|exact Hfresh|reflexivity].
    rewrite isHybrid_with_table, Hh.
    unfold parseData. cbn [r_payload].
    pose proof (parse_stringify_safe _
      (stamped_safe (generateId ms rnd) now data Hsafe)) as Hp.
    unfold stamped in Hp. by rewrite Hp.
Qed.

Lemma nosql_roundtrip_witness :
  ∃ d',
    set 1714557600000 "k3j9x" sampleTime
      (<["name" := VStr "Ada"]> {["tags" := VArr [VStr "a"; VNull]]})
      connectedDriver
    = (Ok (VObj (stamped sampleId sampleTime
                   (<["name" := VStr "Ada"]> {["tags" := VArr [VStr "a"; VNull]]}))),
       d')
    ∧ getOne {["_id" := VStr sampleId]} d'
      = (Ok (VObj (stamped sampleId sampleTime
                     (<["name" := VStr "Ada"]> {["tags" := VArr [VStr "a"; VNull]]}))),
         d').
Proof.
  apply (nosql_roundtrip connectedDriver [] 1714557600000 "k3j9x" sampleTime
           (<["name" := VStr "Ada"]> {["tags" := VArr [VStr "a"; VNull]]}));
    vm_compute; reflexivity.
Defined.

(** * Further properties of the driver *)

(** ** Facts about the samples *)

Lemma oneRecordDriver_table : table oneRecordDriver = Some [sampleRow].
Proof. vm_compute. reflexivity. Qed.

Lemma oneRecordDriver_keyed : forallb (keyedRow oneRecordDriver) [sampleRow] = true.
Proof. vm_compute. reflexivity. Qed.

Lemma oneRecordDriver_wellKeyed : wellKeyed oneRecordDriver.
Proof.
  exists [sampleRow]. split_and!.
  - apply oneRecordDriver_table.
  - apply oneRecordDriver_keyed.
  - apply NoDup_singleton.
Qed.

Lemma hybrid_sample_set :
  set 1714557600000 "k3j9x" sampleTime sampleRecord connectedHybridDriver
  = (Ok (VObj (stamped sampleId sampleTime sampleRecord)), oneRecordHybridDriver).
Proof. vm_compute. reflexivity. Qed.



(** ** Queries and reads *)

Lemma isEmptyQuery_spec (query : gmap string value) :
  isEmptyQuery query = true ↔ query = ∅.
Proof.
  unfold isEmptyQuery. rewrite Nat.eqb_eq. apply map_size_empty_iff.
Qed.

Lemma matchesEntries_object_forallb (o : gmap string value)
  (entries : list (string * value)) :
  matchesEntries (VObj o) entries
  = Ok (forallb (λ kv, strictEq (field o kv.1) kv.2) entries).
Proof.
  induction entries as [|[key v] entries IH]; simpl; [done|].
  fold (field o key). by destruct (strictEq (field o key) v).
Qed.

(** X1. On a record that is an object, [matchesQuery] never throws, and
    it answers [true] exactly when every field of the query is strictly
    equal to the field of that name in the record (a field that the
    record lacks reads [undefined]); the empty query matches. *)
Theorem matchesQuery_object (o query : gmap string value) :
  ∃ b, matchesQuery (VObj o) query = Ok b
       ∧ (b = true ↔ ∀ key v, query !! key = Some v → strictEq (field o key) v = true).
Proof.
  eexists. split.
  - unfold matchesQuery. apply matchesEntries_object_forallb.
  - rewrite forallb_forall. split.
    + intros H key v Hk. apply (H (key, v)).
      apply list_elem_of_In, elem_of_map_to_list. done.
    + intros H [key v] Hin. apply H.
      by apply elem_of_map_to_list, list_elem_of_In.
Qed.

Lemma filterR_all {A} (f : A → result bool) (l : list A) :
  (∀ a, f a = Ok true) → filterR f l = Ok l.
Proof.
  intros H. induction l as [|a l IH]; simpl; [done|].
  by rewrite H, IH.
Qed.

(** X2. In both modes [get query] is [get {}] filtered by
    [matchesQuery]: it fails where [get {}] fails, with the same error, and
    it throws where [matchesQuery] throws on a record. *)
Theorem get_is_filtered_get_all (query : gmap string value) (d : SQLiteDriver) :
  get query d
  = match get ∅ d with
    | (Ok all, _) => (filterR (λ record, matchesQuery record query) all, d)
    | (Err e, _) => (Err e, d)
    end.
Proof.
  destruct (db d) eqn:Hdb.
  2:{ unfold get. by rewrite !guarded_closed. }
  unfold get. rewrite !guarded_open by done.
  unfold sqlSelectAll, andThen, rows, ret, lift.
  destruct (table d) as [t|]; [|by destruct (isHybrid d)].
  assert (Hempty : ∀ l : list value, isEmptyQuery query = true →
            filterR (λ record, matchesQuery record query) l = Ok l).
  { intros l Hq. apply isEmptyQuery_spec in Hq as ->.
    apply filterR_all. intros a. unfold matchesQuery.
    by rewrite map_to_list_empty. }
  change (isEmptyQuery ∅) with true. cbn [negb].
  destruct (isHybrid d).
  - destruct (isEmptyQuery query) eqn:Hq; simpl; [|done]. by rewrite Hempty.
  - destruct (mapR parseData t) as [rs|e]; [|done].
    destruct (isEmptyQuery query) eqn:Hq; simpl; [|done]. by rewrite Hempty.
Qed.

Lemma get_state (query : gmap string value) (d : SQLiteDriver) :
  (get query d).2 = d.
Proof.
  unfold get, andThen, ensureConnected.
  destruct (db d); [|done].
  unfold sqlSelectAll, rows, ret, lift.
  destruct (isHybrid d), (table d) as [t|]; try done.
  - by destruct (negb (isEmptyQuery query)).
  - destruct (mapR parseData t); [|done]. by destruct (isEmptyQuery query).
Qed.

Lemma getOne_state (query : gmap string value) (d : SQLiteDriver) :
  (getOne query d).2 = d.
Proof.
  unfold getOne. unfold andThen at 1. unfold ensureConnected.
  destruct (db d); [|done].
  destruct (truthy (field query "_id")).
  - unfold sqlSelectById, andThen, rows, ret, lift.
    destruct (isHybrid d), (bindParam (field query "_id")) as [k|e],
      (table d) as [t|]; try done;
      by destruct (List.find (key_matches k) t).
  - unfold andThen, ret. pose proof (get_state query d) as Hget.
    by destruct (get query d) as [[rs|e] d1].
Qed.

(** X4. [get], [getOne], [exists] and [count] leave the driver as it
    was, whatever they return or throw: connection, schema, mode, table
    and open transaction. *)
Theorem reads_leave_driver (query : gmap string value) (d : SQLiteDriver) :
  (get query d).2 = d ∧ (getOne query d).2 = d
  ∧ (exists_ query d).2 = d ∧ (count query d).2 = d.
Proof.
  split_and!; [apply get_state|apply getOne_state| |].
  - unfold exists_. unfold andThen at 1. unfold ensureConnected.
    destruct (db d); [|done]. unfold andThen, ret.
    pose proof (getOne_state query d) as Hone.
    by destruct (getOne query d) as [[r|e] d1].
  - unfold count. unfold andThen at 1. unfold ensureConnected.
    destruct (db d); [|done].
    destruct (isEmptyQuery query).
    + unfold sqlCount, andThen, rows, ret. by destruct (table d).
    + unfold andThen, ret. pose proof (get_state query d) as Hget.
      by destruct (get query d) as [[rs|e] d1].
Qed.

Lemma matchesQuery_nullish (record : value) (query : gmap string value) :
  record = VNull ∨ record = VUndefined →
  matchesQuery record query
  = if isEmptyQuery query then Ok true else Err TypeError.
Proof.
  intros Hr. unfold matchesQuery.
  destruct (isEmptyQuery query) eqn:Hq.
  - apply isEmptyQuery_spec in Hq as ->. by rewrite map_to_list_empty.
  - destruct (map_to_list query) as [|[key v] l] eqn:Hl.
    + apply map_to_list_empty_iff in Hl.
      apply isEmptyQuery_spec in Hl. congruence.
    + by destruct Hr as [-> | ->].
Qed.

Lemma matchesEntries_error (record : value) (entries : list (string * value))
  (e : error) :
  matchesEntries record entries = Err e → e = TypeError.
Proof.
  induction entries as [|[key v] entries IH]; [done|]. simpl.
  destruct (getProp record key) as [x|e'] eqn:Hx.
  - simpl. destruct (negb (strictEq x v)); [done|]. apply IH.
  - simpl. intros [= <-].
    destruct record; simpl in Hx; try congruence;
      destruct (String.eqb key "length"); congruence.
Qed.

Lemma filterR_nullish (query : gmap string value) (all : list value) :
  isEmptyQuery query = false → In VNull all ∨ In VUndefined all →
  filterR (λ record, matchesQuery record query) all = Err TypeError.
Proof.
  intros Hq. induction all as [|a all IH]; [by intros [[]|[]]|].
  intros Hin. simpl.
  destruct (matchesQuery a query) as [b|e] eqn:Ha.
  - simpl. rewrite IH; [done|].
    destruct Hin as [[->|Hin]|[->|Hin]]; [|by left| |by right];
      rewrite matchesQuery_nullish, Hq in Ha by auto; done.
  - simpl. f_equal. by apply (matchesEntries_error a (map_to_list query)).
Qed.

Lemma get_filtered (query : gmap string value) (d d' : SQLiteDriver)
  (all : list value) :
  get ∅ d = (Ok all, d') → isEmptyQuery query = false →
  get query d = (filterR (λ record, matchesQuery record query) all, d).
Proof.
  intros Hall Hq. destruct (db d) eqn:Hdb.
  2:{ unfold get in Hall. by rewrite guarded_closed in Hall. }
  unfold get in *. rewrite guarded_open in * by done.
  unfold sqlSelectAll, andThen, rows, ret, lift in *.
  change (isEmptyQuery ∅) with true in Hall. rewrite Hq. cbn [negb] in *.
  destruct (table d) as [t|]; [|by destruct (isHybrid d)].
  destruct (isHybrid d).
  - by injection Hall as <- _.
  - destruct (mapR parseData t) as [rs|e]; [|done]. by injection Hall as <- _.
Qed.

(** X3. A record that is [null] or [undefined] (a row whose text is the
    JSON [null]) breaks every filter: on such a record [matchesQuery]
    answers [true] for the empty query and throws a [TypeError] for every
    other query; so when [get {}] returns records among which one is
    [null], every query with a field makes [get], [count], [update] and
    [delete] throw a [TypeError], and nothing is written. *)
Theorem null_record_breaks_filters (query data : gmap string value)
  (stamps : nat → string) (d d' : SQLiteDriver) (all : list value) :
  get ∅ d = (Ok all, d') → In VNull all → isEmptyQuery query = false →
  matchesQuery VNull query = Err TypeError
  ∧ matchesQuery VNull ∅ = Ok true
  ∧ get query d = (Err TypeError, d)
  ∧ count query d = (Err TypeError, d)
  ∧ update stamps query data d = (Err TypeError, d)
  ∧ delete query d = (Err TypeError, d).
Proof.
  intros Hall Hin Hq.
  assert (Hdb : db d = true).
  { destruct (db d) eqn:Hdb; [done|].
    unfold get in Hall. by rewrite guarded_closed in Hall. }
  assert (Hget : get query d = (Err TypeError, d)).
  { rewrite (get_filtered query d d' all Hall Hq).
    by rewrite filterR_nullish by auto. }
  split_and!.
  - by rewrite matchesQuery_nullish, Hq by auto.
  - by rewrite matchesQuery_nullish by auto.
  - done.
  - unfold count. rewrite guarded_open, Hq by done.
    unfold andThen. by rewrite Hget.
  - unfold update. rewrite guarded_open by done.
    unfold andThen. by rewrite Hget.
  - unfold delete. rewrite guarded_open by done.
    unfold andThen. by rewrite Hget.
Qed.

Lemma null_record_breaks_filters_witness :
  get {["role" := VStr "user"]} nullRowDriver = (Err TypeError, nullRowDriver)
  ∧ delete {["role" := VStr "user"]} nullRowDriver
    = (Err TypeError, nullRowDriver).
Proof.
  assert (Hall : get ∅ nullRowDriver
                 = (Ok [VObj (stamped sampleId sampleTime sampleRecord); VNull],
                    nullRowDriver)) by (vm_compute; reflexivity).
  destruct (null_record_breaks_filters {["role" := VStr "user"]} ∅ sampleStamps
              nullRowDriver nullRowDriver _ Hall
              ltac:(right; left; reflexivity) eq_refl)
    as (_ & _ & Hg & _ & _ & Hd).
  split; [exact Hg|exact Hd].
Defined.

(** ** What [update] never does *)

Lemma keepsRows_refl (d : SQLiteDriver) : keepsRows d d.
Proof.
  unfold keepsRows. split_and!; try done. destruct (table d) as [t|]; [|done].
  by exists t.
Qed.

Lemma keepsRows_trans (d1 d2 d3 : SQLiteDriver) :
  keepsRows d1 d2 → keepsRows d2 d3 → keepsRows d1 d3.
Proof.
  unfold keepsRows. intros (?&?&?&?&H12) (?&?&?&?&H23).
  split_and!; try congruence.
  destruct (table d1) as [t1|].
  - destruct H12 as (t2 & Ht2 & ? & ?). rewrite Ht2 in H23.
    destruct H23 as (t3 & ? & ? & ?). exists t3. split_and!; congruence.
  - by rewrite H12 in H23.
Qed.

Lemma sqlUpdate_keepsRows (change : row → row) (k : cell) (d : SQLiteDriver) :
  (∀ r, r_id (change r) = r_id r ∧ r_createdAt (change r) = r_createdAt r) →
  keepsRows d (sqlUpdate change k d).2.
Proof.
  intros Hc. unfold sqlUpdate, andThen, rows, store, keepsRows.
  destruct (table d) as [t|] eqn:Ht; simpl; rewrite ?Ht; [|done].
  split_and!; try done. eexists. split; [done|].
  rewrite !map_map. split; apply map_ext; intros r;
    destruct (key_matches k r); try done; apply Hc.
Qed.

Lemma andThen_keepsRows {A B} (m : M A) (k : A → M B) (d : SQLiteDriver) :
  keepsRows d (m d).2 → (∀ a d1, keepsRows d1 (k a d1).2) →
  keepsRows d ((let! a := m in k a) d).2.
Proof.
  intros Hm Hk. unfold andThen. destruct (m d) as [[a|e] d1]; [|done].
  apply (keepsRows_trans _ d1); [done|apply Hk].
Qed.

Lemma lift_keepsRows {A} (r : result A) (d : SQLiteDriver) :
  keepsRows d (lift r d).2.
Proof. apply keepsRows_refl. Qed.

Lemma sqlPrepareColumns_state (columns used : gset string) (d : SQLiteDriver) :
  (sqlPrepareColumns columns used d).2 = d.
Proof.
  unfold sqlPrepareColumns, andThen, rows, ret, throw.
  destruct (table d); [|done]. by case_bool_decide.
Qed.

Lemma sqlPrepareColumns_Ok (columns used : gset string) (d d' : SQLiteDriver) :
  sqlPrepareColumns columns used d = (Ok tt, d') →
  d' = d ∧ used ⊆ columns ∧ is_Some (table d).
Proof.
  unfold sqlPrepareColumns, andThen, rows, ret, throw.
  destruct (table d); [|done]. case_bool_decide; [|done].
  intros [= <-]. eauto.
Qed.

Lemma updateLoop_keepsRows (stamps : nat → string) (data : gmap string value)
  (records : list value) (i : nat) (d : SQLiteDriver) :
  keepsRows d (updateLoop stamps data i records d).2.
Proof.
  revert i d. induction records as [|record records IH]; intros i d.
  - apply keepsRows_refl.
  - cbn [updateLoop]. apply andThen_keepsRows.
    + destruct (isHybrid d).
      * destruct (splitData (schema d) _) as [sd ed].
        apply andThen_keepsRows; [apply lift_keepsRows|]. intros id d1.
        apply andThen_keepsRows.
        { rewrite sqlPrepareColumns_state. apply keepsRows_refl. }
        intros [] d2.
        apply andThen_keepsRows; [apply lift_keepsRows|]. intros k d3.
        by apply sqlUpdate_keepsRows.
      * apply andThen_keepsRows; [apply lift_keepsRows|]. intros id d1.
        apply andThen_keepsRows; [apply lift_keepsRows|]. intros k d2.
        by apply sqlUpdate_keepsRows.
    + intros [] d1. apply andThen_keepsRows; [apply IH|].
      intros n d2. apply keepsRows_refl.
Qed.

Lemma andThen_Ok {A B} (m : M A) (k : A → M B) (d d' : SQLiteDriver) (b : B) :
  (let! a := m in k a) d = (Ok b, d') →
  ∃ a d1, m d = (Ok a, d1) ∧ k a d1 = (Ok b, d').
Proof.
  unfold andThen. destruct (m d) as [[a|e] d1]; [|done]. intros H.
  by exists a, d1.
Qed.

Lemma updateLoop_count (stamps : nat → string) (data : gmap string value)
  (records : list value) (i n : nat) (d d' : SQLiteDriver) :
  updateLoop stamps data i records d = (Ok n, d') → n = length records.
Proof.
  revert i n d d'. induction records as [|record records IH]; intros i n d d'.
  - by intros [= <- _].
  - cbn [updateLoop]. intros ([] & d1 & _ & H)%andThen_Ok.
    apply andThen_Ok in H as (m & d2 & Hl & [= <- _]).
    simpl. f_equal. by apply (IH _ _ _ _ Hl).
Qed.

Lemma update_rows (stamps : nat → string) (query data : gmap string value)
  (d : SQLiteDriver) :
  keepsRows d (update stamps query data d).2.
Proof.
  pose proof (get_state query d) as Hget.
  unfold update. unfold andThen at 1. unfold ensureConnected.
  destruct (db d); [|apply keepsRows_refl].
  unfold andThen.
  destruct (get query d) as [[records|e] d1]; simpl in Hget; subst d1.
  - apply updateLoop_keepsRows.
  - apply keepsRows_refl.
Qed.

Lemma update_number (stamps : nat → string) (query data : gmap string value)
  (d d' : SQLiteDriver) (n : nat) :
  update stamps query data d = (Ok n, d') →
  ∃ records, get query d = (Ok records, d) ∧ n = length records.
Proof.
  pose proof (get_state query d) as Hget.
  intros Hu. unfold update in Hu.
  destruct (db d) eqn:Hdb; [|by rewrite guarded_closed in Hu].
  rewrite guarded_open in Hu by done. unfold andThen in Hu.
  destruct (get query d) as [[records|e] d1]; simpl in Hget; subst d1;
    [|done].
  exists records. split; [done|]. by apply (updateLoop_count _ _ _ _ _ _ _ Hu).
Qed.

(** X5. [update] never adds or removes a row and never changes the key
    or the creation time of a row, also when it throws half-way; the
    connection, the schema, the mode and the open transaction stay. When
    it returns, the number is the number of records that [get] returns
    for the query. *)
Theorem update_keeps_rows (stamps : nat → string) (query data : gmap string value)
  (d : SQLiteDriver) :
  keepsRows d (update stamps query data d).2
  ∧ (∀ n d', update stamps query data d = (Ok n, d') →
       ∃ records, get query d = (Ok records, d) ∧ n = length records).
Proof.
  split; [apply update_rows|]. intros n d'. apply update_number.
Qed.

(** ** The table after [delete] and [update] *)

Lemma mapR_Ok {A B} (f : A → result B) (g : A → B) (l : list A) :
  (∀ a, In a l → f a = Ok (g a)) → mapR f l = Ok (map g l).
Proof.
  induction l as [|a l IH]; intros H; simpl; [done|].
  rewrite (H a) by (by left). simpl. rewrite IH; [done|].
  intros b Hb. apply H. by right.
Qed.

Lemma get_unfold (query : gmap string value) (d : SQLiteDriver) (t : list row) :
  db d = true → table d = Some t →
  get query d
  = ((let* all := mapR (materialize d) t in
      filterR (λ record, matchesQuery record query) all), d).
Proof.
  intros Hdb Ht. unfold get. rewrite guarded_open by done.
  unfold sqlSelectAll, andThen, rows, ret, lift, materialize. rewrite Ht.
  assert (Hempty : ∀ l : list value, isEmptyQuery query = true →
            filterR (λ record, matchesQuery record query) l = Ok l).
  { intros l Hq. apply isEmptyQuery_spec in Hq as ->.
    apply filterR_all. intros a. unfold matchesQuery.
    by rewrite map_to_list_empty. }
  destruct (isHybrid d).
  - rewrite (mapR_Ok _ (λ r, mergeData (schema d)
                 (select_star (schemaColumns (schema d)) r))) by done.
    simpl. destruct (isEmptyQuery query) eqn:Hq; simpl; [|done].
    by rewrite Hempty.
  - destruct (mapR parseData t) as [rs|e]; [|done]. simpl.
    destruct (isEmptyQuery query) eqn:Hq; simpl; [|done].
    by rewrite Hempty.
Qed.

Lemma keyedRow_spec (d : SQLiteDriver) (r : row) :
  keyedRow d r = true →
  ∃ o, materialize d r = Ok (VObj o) ∧ recordOf d r = VObj o
       ∧ getProp (VObj o) "_id" = Ok (VStr (r_id r)).
Proof.
  unfold keyedRow, recordOf.
  destruct (materialize d r) as [[| | | | | | |o]|]; try done.
  intros H. exists o. split_and!; try done. simpl. fold (field o "_id").
  destruct (field o "_id"); try done. simpl in H.
  by apply String.eqb_eq in H as ->.
Qed.

Lemma get_keyed (query : gmap string value) (d : SQLiteDriver) (t : list row) :
  db d = true → table d = Some t → forallb (keyedRow d) t = true →
  get query d
  = (Ok (map (recordOf d) (List.filter (rowMatches d query) t)), d).
Proof.
  intros Hdb Ht Hk. rewrite (get_unfold query d t) by done. f_equal.
  rewrite forallb_forall in Hk.
  rewrite (mapR_Ok _ (recordOf d)).
  2:{ intros r Hr. by destruct (keyedRow_spec d r (Hk r Hr)) as (o & -> & -> & _). }
  simpl. clear Ht. induction t as [|r t IH]; simpl; [done|].
  destruct (keyedRow_spec d r) as (o & Hm & Ho & _).
  { apply Hk. by left. }
  unfold rowMatches at 1. rewrite Hm, Ho.
  unfold matchesQuery at 1. rewrite matchesEntries_object_forallb. simpl.
  rewrite IH by (intros x Hx; apply Hk; by right). simpl.
  destruct (forallb _ _); simpl; by rewrite ?Ho.
Qed.

Lemma with_table_twice (a b : option (list row)) (d : SQLiteDriver) :
  with_table a (with_table b d) = with_table a d.
Proof. reflexivity. Qed.

Lemma filter_filter {A} (f g : A → bool) (l : list A) :
  List.filter f (List.filter g l) = List.filter (λ a, g a && f a) l.
Proof.
  induction l as [|a l IH]; simpl; [done|].
  destruct (g a); simpl; [|done]. destruct (f a); by rewrite IH.
Qed.

Lemma with_table_same (d : SQLiteDriver) (t : option (list row)) :
  table d = t → with_table t d = d.
Proof. intros <-. by destruct d. Qed.

Lemma filter_all_true {A} (l : list A) : List.filter (λ _, true) l = l.
Proof. induction l as [|a l IH]; simpl; congruence. Qed.

Lemma deleteLoop_keyed (d0 d : SQLiteDriver) (rs t : list row) :
  isHybrid d = isHybrid d0 → schema d = schema d0 →
  table d = Some t → forallb (keyedRow d0) rs = true →
  deleteLoop (map (recordOf d0) rs) d
  = (Ok (length rs),
     with_table (Some (List.filter (λ r, negb (keyAmong rs r)) t)) d).
Proof.
  intros Hh Hs. revert d t Hh Hs.
  induction rs as [|x rs IH]; intros d t Hh Hs Ht Hk.
  - simpl. unfold ret. f_equal.
    rewrite filter_all_true. by rewrite with_table_same.
  - simpl in Hk. apply andb_true_iff in Hk as [Hx Hk].
    destruct (keyedRow_spec d0 x Hx) as (o & _ & Ho & Hid).
    cbn [map deleteLoop]. rewrite Ho.
    unfold andThen at 1. unfold andThen at 1. unfold lift at 1.
    rewrite Hid. unfold andThen at 1. cbn [lift bindParam bindValue].
    unfold sqlDelete, andThen, rows, store. rewrite Ht. cbn beta iota.
    rewrite (IH (with_table (Some (List.filter
                  (λ r, negb (key_matches (CText (r_id x)) r)) t)) d)
                (List.filter (λ r, negb (key_matches (CText (r_id x)) r)) t));
      try done.
    unfold ret. cbn [length]. f_equal. rewrite with_table_twice. f_equal. f_equal.
    rewrite filter_filter. apply filter_ext. intros r.
    unfold keyAmong. simpl. by rewrite negb_orb.
Qed.

Lemma unique_key (t : list row) (x y : row) :
  NoDup (map r_id t) → In x t → In y t → r_id x = r_id y → x = y.
Proof.
  intros Hnd Hx Hy Hxy.
  apply list_elem_of_In, list_elem_of_lookup in Hx as [i Hi].
  apply list_elem_of_In, list_elem_of_lookup in Hy as [j Hj].
  assert (i = j) as ->.
  { apply (NoDup_lookup (map r_id t) i j (r_id x)); [done| |].
    - change (map r_id t) with (r_id <$> t). by rewrite list_lookup_fmap, Hi.
    - change (map r_id t) with (r_id <$> t). by rewrite list_lookup_fmap, Hj, Hxy. }
  congruence.
Qed.

Lemma keyAmong_matching (f : row → bool) (t : list row) (r : row) :
  NoDup (map r_id t) → In r t → keyAmong (List.filter f t) r = f r.
Proof.
  intros Hnd Hr. unfold keyAmong. destruct (f r) eqn:Hf.
  - apply existsb_exists. exists r. split; [|apply String.eqb_refl].
    apply filter_In. done.
  - apply not_true_is_false. intros (x & Hx & Heq)%existsb_exists.
    apply filter_In in Hx as [Hx Hfx]. apply String.eqb_eq in Heq.
    rewrite (unique_key t x r Hnd Hx Hr Heq) in Hfx. congruence.
Qed.

Lemma delete_keyed (query : gmap string value) (d : SQLiteDriver)
  (t : list row) :
  db d = true → table d = Some t →
  forallb (keyedRow d) t = true → NoDup (map r_id t) →
  delete query d
  = (Ok (length (List.filter (rowMatches d query) t)),
     with_table (Some (List.filter (λ r, negb (rowMatches d query r)) t)) d).
Proof.
  intros Hdb Ht Hk Hnd. unfold delete. rewrite guarded_open by done.
  unfold andThen. rewrite (get_keyed query d t) by done.
  rewrite (deleteLoop_keyed d d _ t); try done.
  - do 3 f_equal. apply filter_ext_in. intros r Hr.
    by rewrite keyAmong_matching.
  - rewrite forallb_forall in Hk |- *. intros r Hr. apply Hk.
    by apply filter_In in Hr as [? _].
Qed.

Lemma prepareValue_text (s : string) : prepareValue (VStr s) = VStr s.
Proof. reflexivity. Qed.

Lemma updateLoop_keyed (d0 d : SQLiteDriver) (stamps : nat → string)
  (data : gmap string value) (rs t : list row) (i : nat) :
  isHybrid d0 = false → isHybrid d = false →
  table d = Some t → forallb (keyedRow d0) rs = true →
  updateLoop stamps data i (map (recordOf d0) rs) d
  = (Ok (length rs),
     with_table (Some (map (rewriteInTurn d0 stamps data i rs) t)) d).
Proof.
  intros Hh0. revert d t i.
  induction rs as [|x rs IH]; intros d t i Hh Ht Hk.
  - simpl. unfold ret. rewrite map_id. by rewrite with_table_same.
  - simpl in Hk. apply andb_true_iff in Hk as [Hx Hk].
    destruct (keyedRow_spec d0 x Hx) as (o & _ & Ho & Hid).
    cbn [map updateLoop]. rewrite Ho in *.
    unfold andThen at 1. rewrite Hh.
    unfold andThen at 1. unfold lift at 1. rewrite Hid.
    unfold andThen at 1. cbn [lift bindParam bindValue].
    unfold sqlUpdate at 1. unfold andThen at 1, rows at 1, store at 1.
    rewrite Ht. cbv beta iota. unfold andThen at 1.
    rewrite (IH _ (map (λ r, if key_matches (CText (r_id x)) r
                        then rewrittenRow (stamps i) data (VObj o) r
                        else r) t)); try done.
    unfold ret. cbn [length]. f_equal. rewrite with_table_twice.
    do 2 f_equal. rewrite map_map. apply map_ext. intros r.
    cbn [rewriteInTurn]. by rewrite Ho.
Qed.

Lemma rewrittenRow_id (stamp : string) (data : gmap string value)
  (record : value) (r : row) :
  r_id (rewrittenRow stamp data record r) = r_id r.
Proof. reflexivity. Qed.

Lemma rewriteInTurn_id (d : SQLiteDriver) (stamps : nat → string)
  (data : gmap string value) (rs : list row) (i : nat) (r : row) :
  r_id (rewriteInTurn d stamps data i rs r) = r_id r.
Proof.
  revert i r. induction rs as [|x rs IH]; intros i r; simpl; [done|].
  rewrite IH. destruct (String.eqb _ _); [apply rewrittenRow_id|done].
Qed.

Lemma rewriteInTurn_other (d : SQLiteDriver) (stamps : nat → string)
  (data : gmap string value) (rs : list row) (i : nat) (r : row) :
  keyAmong rs r = false → rewriteInTurn d stamps data i rs r = r.
Proof.
  revert i. induction rs as [|x rs IH]; intros i H; simpl; [done|].
  unfold keyAmong in H. simpl in H. apply orb_false_iff in H as [-> H].
  by apply IH.
Qed.

Lemma keyAmong_In (rs : list row) (r : row) :
  keyAmong rs r = true → ∃ x, In x rs ∧ r_id x = r_id r.
Proof.
  intros (x & Hx & Heq)%existsb_exists. exists x. split; [done|].
  by apply String.eqb_eq.
Qed.

Lemma rewriteRows_in_turn (d : SQLiteDriver) (stamps : nat → string)
  (query data : gmap string value) (t : list row) (i : nat) :
  NoDup (map r_id t) →
  map (rewriteInTurn d stamps data i (List.filter (rowMatches d query) t)) t
  = rewriteRows d stamps query data i t.
Proof.
  revert i. induction t as [|r t IH]; intros i Hnd; [done|].
  cbn [map] in Hnd. apply NoDup_cons in Hnd as [Hr Hnd].
  assert (Hfresh : ∀ f, keyAmong (List.filter f t) r = false).
  { intros f. apply not_true_is_false. intros (x & Hx & Heq)%keyAmong_In.
    apply filter_In in Hx as [Hx _]. apply Hr. rewrite <- Heq.
    apply list_elem_of_In, in_map, Hx. }
  assert (Hother : ∀ y, In y t → String.eqb (r_id r) (r_id y) = false).
  { intros y Hy. apply String.eqb_neq. intros Heq. apply Hr. rewrite Heq.
    apply list_elem_of_In, in_map, Hy. }
  cbn [List.filter rewriteRows map].
  destruct (rowMatches d query r) eqn:Hm.
  - cbn [rewriteInTurn]. rewrite String.eqb_refl. f_equal.
    + apply rewriteInTurn_other. unfold keyAmong.
      rewrite <- (Hfresh (rowMatches d query)). unfold keyAmong.
      reflexivity.
    + rewrite <- IH by done. apply map_ext_in. intros y Hy.
      by rewrite (Hother y Hy).
  - f_equal; [by apply rewriteInTurn_other|]. by apply IH.
Qed.

Lemma update_keyed (stamps : nat → string) (query data : gmap string value)
  (d : SQLiteDriver) (t : list row) :
  db d = true → isHybrid d = false → table d = Some t →
  forallb (keyedRow d) t = true → NoDup (map r_id t) →
  update stamps query data d
  = (Ok (length (List.filter (rowMatches d query) t)),
     with_table (Some (rewriteRows d stamps query data 0 t)) d).
Proof.
  intros Hdb Hh Ht Hk Hnd. unfold update. rewrite guarded_open by done.
  unfold andThen. rewrite (get_keyed query d t) by done.
  rewrite (updateLoop_keyed d d _ _ _ t); try done.
  - by rewrite rewriteRows_in_turn.
  - rewrite forallb_forall in Hk |- *. intros r Hr. apply Hk.
    by apply filter_In in Hr as [? _].
Qed.

(** X6. On a connected driver whose rows are keyed, [delete query]
    returns the number of rows whose record matches the query, and leaves
    exactly the other rows, in their order. *)
Theorem delete_removes_matching (query : gmap string value) (d : SQLiteDriver)
  (t : list row) :
  db d = true → table d = Some t →
  forallb (keyedRow d) t = true → NoDup (map r_id t) →
  delete query d
  = (Ok (length (List.filter (rowMatches d query) t)),
     with_table (Some (List.filter (λ r, negb (rowMatches d query r)) t)) d).
Proof. apply delete_keyed. Qed.

Lemma delete_removes_matching_witness :
  delete {["role" := VStr "user"]} oneRecordDriver
  = (Ok 1%nat, with_table (Some []) oneRecordDriver).
Proof.
  exact (delete_removes_matching {["role" := VStr "user"]} oneRecordDriver
           [sampleRow] eq_refl oneRecordDriver_table oneRecordDriver_keyed
           (NoDup_singleton _)).
Defined.

(** X7. Without schema, on a connected driver whose rows are keyed,
    [update] returns the number of rows whose record matches the query
    (the records that [get] returns), rewrites each of them in place with
    the JSON text of the record read before the first write overlaid with
    the patch and the time of its turn, keeps its key and its
    [_createdAt] column, and leaves the other rows as they are. *)
Theorem update_rewrites_matching (stamps : nat → string)
  (query data : gmap string value) (d : SQLiteDriver) (t : list row) :
  db d = true → isHybrid d = false → table d = Some t →
  forallb (keyedRow d) t = true → NoDup (map r_id t) →
  update stamps query data d
  = (Ok (length (List.filter (rowMatches d query) t)),
     with_table (Some (rewriteRows d stamps query data 0 t)) d)
  ∧ get query d = (Ok (map (recordOf d) (List.filter (rowMatches d query) t)), d).
Proof.
  intros Hdb Hh Ht Hk Hnd. split.
  - by apply update_keyed.
  - by apply get_keyed.
Qed.

Lemma update_rewrites_matching_witness :
  update sampleStamps {["role" := VStr "user"]} {["role" := VStr "admin"]}
    oneRecordDriver
  = (Ok 1%nat,
     with_table
       (Some (rewriteRows oneRecordDriver sampleStamps {["role" := VStr "user"]}
                {["role" := VStr "admin"]} 0 [sampleRow]))
       oneRecordDriver).
Proof.
  exact (proj1 (update_rewrites_matching sampleStamps {["role" := VStr "user"]}
           {["role" := VStr "admin"]} oneRecordDriver [sampleRow]
           eq_refl eq_refl oneRecordDriver_table oneRecordDriver_keyed
           (NoDup_singleton _))).
Defined.

(** ** Inserting *)

Lemma castColumn_other (definition : gmap string value) (key : string) (v : value) :
  typeof v ≠ TyNumber → castColumn definition key v = v.
Proof.
  intros H. unfold castColumn. destruct (truthy _); [|done].
  destruct v; try done; by rewrite andb_false_r.
Qed.

Lemma insertedRow_fields (d : SQLiteDriver) (id now : string)
  (data : gmap string value) :
  r_id (insertedRow d id now data) = id
  ∧ r_createdAt (insertedRow d id now data) = now
  ∧ r_updatedAt (insertedRow d id now data) = now.
Proof. unfold insertedRow. by destruct (isHybrid d). Qed.

Lemma set_unfold (d : SQLiteDriver) (ms : Z) (rnd now : string)
  (data : gmap string value) :
  set ms rnd now data d
  = if db d then
      match table d with
      | None => (Err no_such_table, d)
      | Some t =>
          if namesMissingColumn d (stamped (generateId ms rnd) now data)
          then (Err no_such_column, d)
          else if existsb (λ r, String.eqb (r_id r) (generateId ms rnd)) t
          then (Err ConstraintViolation, d)
          else (Ok (VObj (stamped (generateId ms rnd) now data)),
                with_table
                  (Some (t ++ [insertedRow d (generateId ms rnd) now data])%list) d)
      end
    else (Err NotConnected, d).
Proof.
  unfold set. destruct (db d) eqn:Hdb; [|by rewrite guarded_closed].
  rewrite guarded_open by done. unfold andThen at 1, ret. cbv beta.
  unfold insertedRow, namesMissingColumn, stamped.
  destruct (isHybrid d).
  - destruct (splitData (schema d) _) as [sd ed]. cbn [fst snd andb].
    unfold sqlPrepareColumns, sqlInsert, andThen, rows, store, throw, ret.
    destruct (table d) as [t|] eqn:Ht; [|done].
    case_bool_decide; cbn [negb]; [|done]. rewrite Ht. cbn [r_id].
    by destruct (existsb _ t).
  - unfold sqlInsert, andThen, rows, store, throw. simpl.
    destruct (table d) as [t|]; [|done]. by destruct (existsb _ t).
Qed.


Lemma count_all (d : SQLiteDriver) (t : list row) :
  db d = true → table d = Some t → count ∅ d = (Ok (length t), d).
Proof.
  intros Hdb Ht. unfold count. rewrite guarded_open by done.
  change (isEmptyQuery ∅) with true. cbv iota.
  unfold sqlCount, andThen, rows, ret. by rewrite Ht.
Qed.



Lemma merged_reserved (s : option schema_object) (d : SQLiteDriver)
  (id now : string) (data : gmap string value) :
  schema d = s → isHybrid d = true →
  ∃ back,
    mergeData s (select_star (schemaColumns s) (insertedRow d id now data))
    = VObj back
    ∧ back !! "_id" = Some (VStr id)
    ∧ back !! "_createdAt" = Some (VStr now)
    ∧ back !! "_updatedAt" = Some (VStr now).
Proof.
  intros Hs Hh. unfold insertedRow. rewrite Hh, Hs.
  destruct s as [s|]; [|by unfold isHybrid in Hh; rewrite Hs in Hh].
  unfold mergeData, select_star, JSON_stringify. simpl.
  eexists. split; [reflexivity|].
  assert (Hextra : ∀ key, is_reserved key = true →
    omap toJSON (splitData (Some s) (stamped id now data)).2 !! key = None).
  { intros key Hk. rewrite lookup_omap.
    rewrite (proj2 (splitData_lookup s (stamped id now data) key)).
    by rewrite Hk, orb_true_r. }
  unfold spread.
  split_and!; rewrite lookup_union_r by (by apply Hextra);
    rewrite map_lookup_imap.
  - rewrite lookup_insert_eq. simpl. by rewrite castColumn_other.
  - rewrite lookup_insert_ne, lookup_insert_eq by done. simpl.
    by rewrite castColumn_other.
  - rewrite !lookup_insert_ne, lookup_insert_eq by done. simpl.
    by rewrite castColumn_other.
Qed.

(** X9. In both modes and for every data: after a [set] that returned,
    [getOne] on the assigned key returns an object with that [_id] and
    the [_createdAt] and [_updatedAt] of the insertion, and [exists]
    answers [true]. *)
Theorem set_then_getOne (d d' : SQLiteDriver) (ms : Z) (rnd now : string)
  (data : gmap string value) (record : value) :
  set ms rnd now data d = (Ok record, d') →
  let id := generateId ms rnd in
  ∃ back,
    getOne {["_id" := VStr id]} d' = (Ok (VObj back), d')
    ∧ back !! "_id" = Some (VStr id)
    ∧ back !! "_createdAt" = Some (VStr now)
    ∧ back !! "_updatedAt" = Some (VStr now)
    ∧ exists_ {["_id" := VStr id]} d' = (Ok true, d').
Proof.
  intros Hset id. rewrite set_unfold in Hset.
  destruct (db d) eqn:Hdb; [|done].
  destruct (table d) as [t|] eqn:Ht; [|done].
  destruct (namesMissingColumn d _) eqn:Hmiss; [done|].
  destruct (existsb _ t) eqn:Hfresh; [done|].
  injection Hset as _ <-. fold id in Hfresh |- *.
  assert (Hone : getOne {["_id" := VStr id]}
              (with_table (Some (t ++ [insertedRow d id now data])%list) d)
    = (if isHybrid d
       then Ok (mergeData (schema d)
                  (select_star (schemaColumns (schema d))
                     (insertedRow d id now data)))
       else parseData (insertedRow d id now data),
       with_table (Some (t ++ [insertedRow d id now data])%list) d)).
  { rewrite getOne_by_key by (rewrite field_singleton; apply generateId_truthy).
    rewrite guarded_open by done. rewrite field_singleton.
    unfold primaryKeyLookup, sqlSelectById, andThen, rows, ret, lift.
    cbn [bindParam bindValue table with_table].
    rewrite (find_appended id t) by
      (done || apply insertedRow_fields).
    rewrite isHybrid_with_table. by destruct (isHybrid d). }
  assert (Hback : ∃ back,
    (if isHybrid d
     then Ok (mergeData (schema d)
                (select_star (schemaColumns (schema d))
                   (insertedRow d id now data)))
     else parseData (insertedRow d id now data)) = Ok (VObj back)
    ∧ back !! "_id" = Some (VStr id)
    ∧ back !! "_createdAt" = Some (VStr now)
    ∧ back !! "_updatedAt" = Some (VStr now)).
  { destruct (isHybrid d) eqn:Hh.
    - destruct (merged_reserved (schema d) d id now data eq_refl Hh)
        as (back & -> & ?). by exists back.
    - unfold insertedRow. rewrite Hh. unfold parseData, JSON_stringify. simpl.
      eexists. split; [reflexivity|]. unfold stamped.
      rewrite !lookup_omap.
      rewrite lookup_insert_ne, lookup_insert_ne, lookup_insert_eq by done.
      rewrite lookup_insert_ne, lookup_insert_eq by done.
      by rewrite lookup_insert_eq. }
  destruct Hback as (back & Hb & H1 & H2 & H3).
  exists back. rewrite Hone, Hb. split_and!; try done.
  unfold exists_. rewrite guarded_open by done.
  unfold andThen. by rewrite Hone, Hb.
Qed.

Lemma set_then_getOne_witness :
  ∃ back,
    getOne {["_id" := VStr sampleId]} oneRecordHybridDriver
    = (Ok (VObj back), oneRecordHybridDriver)
    ∧ back !! "_id" = Some (VStr sampleId)
    ∧ back !! "_createdAt" = Some (VStr sampleTime)
    ∧ back !! "_updatedAt" = Some (VStr sampleTime)
    ∧ exists_ {["_id" := VStr sampleId]} oneRecordHybridDriver
      = (Ok true, oneRecordHybridDriver).
Proof.
  exact (set_then_getOne connectedHybridDriver oneRecordHybridDriver
           1714557600000 "k3j9x" sampleTime sampleRecord _ hybrid_sample_set).
Defined.

(** ** Connecting, clearing, dropping *)

Lemma with_db_same (d : SQLiteDriver) (b : bool) : db d = b → with_db b d = d.
Proof. intros <-. by destruct d. Qed.

Lemma newConnection_fields (d : SQLiteDriver) :
  db (newConnection d) = true ∧ schema (newConnection d) = schema d
  ∧ dbType (newConnection d) = dbType d ∧ snapshot (newConnection d) = None.
Proof. unfold newConnection. destruct (snapshot d) eqn:Hs; by split_and!. Qed.

Lemma newConnection_same (d : SQLiteDriver) :
  db d = true → snapshot d = None → newConnection d = d.
Proof. intros Hdb Hs. unfold newConnection. rewrite Hs. by apply with_db_same. Qed.

Lemma sqlCreateHybridTable_again (columns : list (string * string))
  (d : SQLiteDriver) :
  let r := sqlCreateHybridTable columns d in
  sameConnection d r.2 ∧ sqlCreateHybridTable columns r.2 = r.
Proof.
  unfold sqlCreateHybridTable, sameConnection.
  destruct columns as [|c cs]; [done|].
  destruct (table d) as [t|] eqn:Ht.
  - cbn. rewrite Ht. split_and!; try done.
  - case_bool_decide as Hex; cbn -[columnNames]; rewrite ?Ht;
      rewrite ?(bool_decide_eq_true_2 _ Hex), ?(bool_decide_eq_false_2 _ Hex);
      by split_and!.
Qed.

Lemma sqlCreateTable_again (d : SQLiteDriver) :
  let r := sqlCreateTable d in
  sameConnection d r.2 ∧ sqlCreateTable r.2 = r.
Proof.
  unfold sqlCreateTable, sameConnection.
  destruct (table d) as [t|] eqn:Ht; cbn; rewrite ?Ht; by split_and!.
Qed.

Lemma connect_unfold (d : SQLiteDriver) :
  connect d
  = match schema d, dbType d with
    | Some s, sql =>
        sqlCreateHybridTable
          (map (λ kt : string * value, (kt.1, mapHawiahTypeToSQL kt.2))
             (map_to_list (getDefinition s))) (newConnection d)
    | _, _ => sqlCreateTable (newConnection d)
    end.
Proof.
  unfold connect. cbv zeta.
  destruct (newConnection_fields d) as (_ & -> & -> & _). done.
Qed.

(** X10. Connecting twice is connecting once: the second [connect]
    returns or throws as the first did and leaves the same driver. After
    [connect] the driver counts as connected, also when the statement
    that creates the table failed, and no transaction is open. *)
Theorem connect_idempotent (d : SQLiteDriver) :
  connect (connect d).2 = connect d
  ∧ db (connect d).2 = true ∧ snapshot (connect d).2 = None.
Proof.
  set (create := λ d0 : SQLiteDriver,
    match schema d0, dbType d0 with
    | Some s, sql =>
        sqlCreateHybridTable
          (map (λ kt : string * value, (kt.1, mapHawiahTypeToSQL kt.2))
             (map_to_list (getDefinition s))) d0
    | _, _ => sqlCreateTable d0
    end).
  assert (Hc : ∀ d0, connect d0 = create (newConnection d0)).
  { intros d0. rewrite connect_unfold. unfold create.
    by destruct (newConnection_fields d0) as (_ & -> & -> & _). }
  assert (Hagain : ∀ d0, sameConnection d0 (create d0).2
                         ∧ create (create d0).2 = create d0).
  { intros d0. unfold create.
    destruct (schema d0) as [s|] eqn:Hs, (dbType d0) eqn:Hd.
    - destruct (sqlCreateHybridTable_again
        (map (λ kt : string * value, (kt.1, mapHawiahTypeToSQL kt.2))
           (map_to_list (getDefinition s))) d0) as ((H1 & H2 & H3 & H4) & Hi).
      cbv zeta in *. split; [done|]. by rewrite H2, H3, Hs, Hd.
    - destruct (sqlCreateTable_again d0) as ((H1 & H2 & H3 & H4) & Hi).
      cbv zeta in *. split; [done|]. by rewrite H2, H3, Hs, Hd.
    - destruct (sqlCreateTable_again d0) as ((H1 & H2 & H3 & H4) & Hi).
      cbv zeta in *. split; [done|]. by rewrite H2, Hs.
    - destruct (sqlCreateTable_again d0) as ((H1 & H2 & H3 & H4) & Hi).
      cbv zeta in *. split; [done|]. by rewrite H2, Hs. }
  destruct (newConnection_fields d) as (Hdb & _ & _ & Hsn).
  destruct (Hagain (newConnection d)) as ((H1 & _ & _ & H4) & Hi).
  rewrite (Hc d). split_and!; [|congruence|congruence].
  rewrite Hc. rewrite newConnection_same by congruence. exact Hi.
Qed.

(** X11. On a connected driver with its table, [clear] returns, and then
    [get] returns no record and [count] returns 0 for every query; the
    connection, the schema, the mode and the open transaction stay. *)
Theorem clear_empties (d : SQLiteDriver) (t : list row) :
  db d = true → table d = Some t →
  ∃ d', clear d = (Ok tt, d')
    ∧ (∀ query, get query d' = (Ok [], d'))
    ∧ (∀ query, count query d' = (Ok 0%nat, d'))
    ∧ sameConnection d d'.
Proof.
  intros Hdb Ht. exists (with_table (Some []) d).
  assert (Hget : ∀ query,
    get query (with_table (Some []) d) = (Ok [], with_table (Some []) d)).
  { intros query. unfold get. rewrite guarded_open by done.
    rewrite isHybrid_with_table.
    unfold sqlSelectAll, andThen, rows, ret, lift. simpl.
    by destruct (isHybrid d), (isEmptyQuery query). }
  split_and!; [|done| |done].
  - unfold clear. rewrite guarded_open by done.
    unfold sqlDeleteAll, andThen, rows, store. by rewrite Ht.
  - intros query. unfold count. rewrite guarded_open by done.
    destruct (isEmptyQuery query).
    + by unfold sqlCount, andThen, rows, ret.
    + unfold andThen. by rewrite Hget.
Qed.

Lemma clear_empties_witness :
  ∃ d', clear oneRecordDriver = (Ok tt, d')
    ∧ (∀ query, get query d' = (Ok [], d'))
    ∧ (∀ query, count query d' = (Ok 0%nat, d'))
    ∧ sameConnection oneRecordDriver d'.
Proof.
  exact (clear_empties oneRecordDriver [sampleRow] eq_refl oneRecordDriver_table).
Defined.

(** X12. On a connected driver [drop] returns (with or without a
    table); then [get], [count] and [set] fail with the error of the
    engine for a missing table and change nothing, and without schema
    and outside a transaction a new [connect] creates the empty table. *)
Theorem drop_removes_table (d : SQLiteDriver) :
  db d = true →
  drop d = (Ok tt, with_table None d)
  ∧ (∀ query, get query (with_table None d)
              = (Err no_such_table, with_table None d))
  ∧ (∀ query, count query (with_table None d)
              = (Err no_such_table, with_table None d))
  ∧ (∀ ms rnd now data, set ms rnd now data (with_table None d)
                        = (Err no_such_table, with_table None d))
  ∧ (schema d = None → snapshot d = None →
     connect (with_table None d) = (Ok tt, with_table (Some []) d)).
Proof.
  intros Hdb. split_and!.
  - unfold drop. by rewrite guarded_open.
  - intros query. unfold get. rewrite guarded_open by done.
    rewrite isHybrid_with_table.
    unfold sqlSelectAll, andThen, rows. simpl. by destruct (isHybrid d).
  - intros query. unfold count. rewrite guarded_open by done.
    destruct (isEmptyQuery query).
    + by unfold sqlCount, andThen, rows.
    + unfold andThen, get. rewrite guarded_open by done.
      rewrite isHybrid_with_table.
      unfold sqlSelectAll, andThen, rows. simpl. by destruct (isHybrid d).
  - intros ms rnd now data. rewrite set_unfold. cbn. by rewrite Hdb.
  - intros Hs Hsn. rewrite connect_unfold. cbn [schema with_table].
    rewrite Hs. rewrite newConnection_same by done.
    unfold sqlCreateTable. done.
Qed.

Lemma drop_removes_table_witness :
  drop oneRecordDriver = (Ok tt, with_table None oneRecordDriver)
  ∧ get ∅ (with_table None oneRecordDriver)
    = (Err no_such_table, with_table None oneRecordDriver).
Proof.
  destruct (drop_removes_table oneRecordDriver eq_refl) as (Hd & Hg & _).
  split; [exact Hd|apply Hg].
Defined.

(** ** Disconnecting *)

(** X13. [disconnect] never throws; afterwards the driver is closed,
    the schema is kept, every operation that needs a connection fails
    with the connection error, and a second [disconnect] does nothing. *)
Theorem disconnect_closes (d : SQLiteDriver) (e : raw_engine) (c : call) :
  (disconnect d).1 = Ok tt
  ∧ db (disconnect d).2 = false
  ∧ schema (disconnect d).2 = schema d
  ∧ (invoke e c (disconnect d).2).1 = Err NotConnected
  ∧ disconnect (disconnect d).2 = (Ok tt, (disconnect d).2).
Proof.
  assert (H1 : (disconnect d).1 = Ok tt).
  { unfold disconnect. destruct (db d); [|done]. by destruct (snapshot d). }
  assert (H2 : db (disconnect d).2 = false).
  { unfold disconnect. destruct (db d) eqn:Hdb; [|done].
    by destruct (snapshot d). }
  split_and!; try done.
  - unfold disconnect. destruct (db d); [|done]. by destruct (snapshot d).
  - destruct c; unfold invoke, answering, andThen;
      unfold set, get, getOne, update, delete, exists_, count, clear, drop, vacuum,
        analyze, beginTransaction, commit, rollback, executeRaw, prepare;
      by rewrite guarded_closed.
  - unfold disconnect at 1. by rewrite H2.
Qed.

(** X14. For a table kept in a file, without schema: outside a
    transaction, closing a connected driver and connecting again gives
    the driver back as it was, rows included. *)
Theorem reconnect_keeps_rows (d : SQLiteDriver) (t : list row) :
  db d = true → table d = Some t → snapshot d = None → isHybrid d = false →
  (disconnect ;; connect) d = (Ok tt, d).
Proof.
  intros Hdb Ht Hs Hh. unfold andThen, disconnect. rewrite Hdb, Hs.
  rewrite connect_unfold. cbn [schema dbType with_db].
  assert (Hn : newConnection (with_db false d) = d).
  { unfold newConnection. cbn [snapshot with_db]. rewrite Hs.
    change (with_db true (with_db false d)) with (with_db true d).
    by apply with_db_same. }
  rewrite Hn. unfold isHybrid in Hh.
  destruct (schema d) as [s|], (dbType d); try done;
    unfold sqlCreateTable; by rewrite Ht.
Qed.

Lemma reconnect_keeps_rows_witness :
  (disconnect ;; connect) oneRecordDriver = (Ok tt, oneRecordDriver).
Proof.
  exact (reconnect_keeps_rows oneRecordDriver [sampleRow] eq_refl
           oneRecordDriver_table eq_refl eq_refl).
Defined.

(** X15. With a schema that has no field, [connect] fails with the
    syntax error of the engine, on a new file and on an existing one; the
    driver then holds the new connection, so that on a file without the
    table [get] fails with the error for a missing table, not with the
    connection error. *)
Theorem connect_empty_schema (d : SQLiteDriver) (s : schema_object) :
  schema d = Some s → dbType d = sql → getDefinition s = ∅ →
  connect d = (Err (BackingEngineFailure "syntax error"), newConnection d)
  ∧ (table (newConnection d) = None →
     ∀ query, get query (connect d).2 = (Err no_such_table, (connect d).2)).
Proof.
  intros Hs Hty Hdef.
  assert (Hc : connect d
    = (Err (BackingEngineFailure "syntax error"), newConnection d)).
  { rewrite connect_unfold, Hs, Hty, Hdef. by rewrite map_to_list_empty. }
  split; [done|]. intros Ht query. rewrite Hc. cbn [snd].
  destruct (newConnection_fields d) as (Hdb & _).
  unfold get. rewrite guarded_open by done.
  unfold sqlSelectAll, andThen, rows. rewrite Ht.
  by destruct (isHybrid (newConnection d)).
Qed.

Lemma connect_empty_schema_witness :
  connect emptySchemaDriver
  = (Err (BackingEngineFailure "syntax error"), with_db true emptySchemaDriver)
  ∧ get ∅ (connect emptySchemaDriver).2
    = (Err no_such_table, (connect emptySchemaDriver).2).
Proof.
  destruct (connect_empty_schema emptySchemaDriver (Definition_ ∅)
              eq_refl eq_refl eq_refl) as [Hc Hg].
  split; [exact Hc|]. apply Hg. reflexivity.
Defined.

(** ** Helpers *)

(** X16. [prepareValue] yields a value that the binding accepts, for
    every value; it never yields a boolean or [undefined], and preparing
    twice is preparing once. *)
Theorem prepareValue_bindable (v : value) :
  (∃ c, bindParam (prepareValue v) = Ok c)
  ∧ prepareValue (prepareValue v) = prepareValue v
  ∧ typeof (prepareValue v) ≠ TyBoolean
  ∧ typeof (prepareValue v) ≠ TyUndefined.
Proof.
  split; [rewrite bindParam_prepareValue; eauto|].
  by destruct v as [| |[]|[z| |neg]|s|bytes|items|props].
Qed.

Lemma pretty_N_char_free (n : N) : Ascii.eqb (pretty_N_char n) "_" = false.
Proof. unfold pretty_N_char. by repeat case_match. Qed.

Lemma pretty_N_go_free (x : N) (s : string) :
  free_of "_" s = true → free_of "_" (pretty_N_go x s) = true.
Proof.
  revert s. induction (N.lt_wf_0 x) as [x _ IH]; intros s Hs.
  destruct (decide (x = 0)%N) as [->|Hx].
  - by rewrite pretty_N_go_0.
  - rewrite pretty_N_go_step by lia. apply IH.
    + apply N.div_lt; lia.
    + simpl. by rewrite pretty_N_char_free.
Qed.

Lemma pretty_N_free (x : N) : free_of "_" (pretty x) = true.
Proof.
  unfold pretty, pretty_N. case_decide; [done|]. by apply pretty_N_go_free.
Qed.

Lemma pretty_Z_free (z : Z) : free_of "_" (pretty z) = true.
Proof.
  destruct z as [|p|p]; [done| |].
  - apply (pretty_N_free (Npos p)).
  - change (pretty (Z.neg p)) with ("-" +:+ pretty (Npos p)).
    rewrite app_cons, app_nil. simpl. apply (pretty_N_free (Npos p)).
Qed.

Lemma split_at_first (c : ascii) (s s' r r' : string) :
  free_of c s = true → free_of c s' = true →
  s +:+ String c r = s' +:+ String c r' → s = s' ∧ r = r'.
Proof.
  revert s'. induction s as [|x s IH]; intros [|x' s'] Hs Hs' Heq.
  - rewrite !app_nil in Heq. by injection Heq.
  - rewrite app_nil, app_cons in Heq. injection Heq as <- _.
    simpl in Hs'. by rewrite Ascii.eqb_refl in Hs'.
  - rewrite app_nil, app_cons in Heq. injection Heq as -> _.
    simpl in Hs. by rewrite Ascii.eqb_refl in Hs.
  - rewrite !app_cons in Heq. injection Heq as -> Heq.
    simpl in Hs, Hs'. apply andb_true_iff in Hs as [_ Hs].
    apply andb_true_iff in Hs' as [_ Hs'].
    destruct (IH s' Hs Hs' Heq) as [-> ->]. done.
Qed.

(** X17. Two keys of [generateId] are equal only when both the clock
    and the random suffix are equal. *)
Theorem generateId_injective (ms ms' : Z) (rnd rnd' : string) :
  generateId ms rnd = generateId ms' rnd' ↔ ms = ms' ∧ rnd = rnd'.
Proof.
  split; [|by intros [-> ->]].
  unfold generateId. intros Heq.
  change ("_" +:+ rnd) with (String "_" rnd) in Heq.
  change ("_" +:+ rnd') with (String "_" rnd') in Heq.
  apply split_at_first in Heq as [Hms ->]; try apply pretty_Z_free.
  split; [|done]. by apply (inj pretty).
Qed.

Lemma toUpperCase_idem (s : string) : toUpperCase (toUpperCase s) = toUpperCase s.
Proof.
  induction s as [|c s IH]; simpl; [done|]. f_equal; [|done].
  unfold upper_ascii.
  destruct ((97 <=? N_of_ascii c)%N && (N_of_ascii c <=? 122)%N) eqn:Hc; [|by rewrite Hc].
  apply andb_true_iff in Hc as [H1%N.leb_le H2%N.leb_le].
  rewrite N_ascii_embedding by lia.
  destruct (97 <=? N_of_ascii c - 32)%N eqn:H3; [|done].
  apply N.leb_le in H3. lia.
Qed.

(** X18. [mapHawiahTypeToSQL] maps a structured descriptor whose [type]
    is a non-empty text as it maps that text, maps a tag as it maps the
    tag in upper case, and answers one of TEXT, INTEGER, REAL and BLOB on
    every text tag, hence on every structured descriptor with a non-empty
    text as its [type]. *)
Theorem mapHawiahTypeToSQL_descriptors (c : ascii) (tag : string)
  (o : gmap string value) :
  mapHawiahTypeToSQL (VObj (<["type" := VStr (String c tag)]> o))
  = mapHawiahTypeToSQL (VStr (String c tag))
  ∧ mapHawiahTypeToSQL (VStr (toUpperCase tag)) = mapHawiahTypeToSQL (VStr tag)
  ∧ In (mapHawiahTypeToSQL (VStr tag)) ["TEXT"; "INTEGER"; "REAL"; "BLOB"]
  ∧ In (mapHawiahTypeToSQL (VObj (<["type" := VStr (String c tag)]> o)))
       ["TEXT"; "INTEGER"; "REAL"; "BLOB"].
Proof.
  assert (Hobj : mapHawiahTypeToSQL (VObj (<["type" := VStr (String c tag)]> o))
                 = mapHawiahTypeToSQL (VStr (String c tag))).
  { unfold mapHawiahTypeToSQL. cbn [typeof jstype_eqb ownProps andb].
    unfold field. rewrite lookup_insert_eq. reflexivity. }
  assert (Hrange : ∀ t, In (mapHawiahTypeToSQL (VStr t))
                          ["TEXT"; "INTEGER"; "REAL"; "BLOB"]).
  { intros t. unfold mapHawiahTypeToSQL.
    repeat (match goal with |- context [if ?b then _ else _] => destruct b end);
      simpl; tauto. }
  split_and!; [done| |apply Hrange|rewrite Hobj; apply Hrange].
  unfold mapHawiahTypeToSQL. simpl. by rewrite toUpperCase_idem.
Qed.

(** ** After [delete] *)

Lemma keyedRow_with_table (d : SQLiteDriver) (x : option (list row)) (r : row) :
  keyedRow (with_table x d) r = keyedRow d r.
Proof. reflexivity. Qed.

Lemma rowMatches_with_table (d : SQLiteDriver) (x : option (list row))
  (query : gmap string value) (r : row) :
  rowMatches (with_table x d) query r = rowMatches d query r.
Proof. reflexivity. Qed.

Lemma insertedRow_materialize (d : SQLiteDriver) (id now : string)
  (data : gmap string value) :
  ∃ back,
    materialize d (insertedRow d id now data) = Ok (VObj back)
    ∧ back !! "_id" = Some (VStr id)
    ∧ back !! "_createdAt" = Some (VStr now)
    ∧ back !! "_updatedAt" = Some (VStr now).
Proof.
  unfold materialize. destruct (isHybrid d) eqn:Hh.
  - destruct (merged_reserved (schema d) d id now data eq_refl Hh)
      as (back & -> & ?). by exists back.
  - unfold insertedRow. rewrite Hh. unfold parseData, JSON_stringify. simpl.
    eexists. split; [reflexivity|]. unfold stamped.
    rewrite !lookup_omap.
    rewrite lookup_insert_ne, lookup_insert_ne, lookup_insert_eq by done.
    rewrite lookup_insert_ne, lookup_insert_eq by done.
    by rewrite lookup_insert_eq.
Qed.

Lemma insertedRow_keyed (d : SQLiteDriver) (id now : string)
  (data : gmap string value) :
  keyedRow d (insertedRow d id now data) = true.
Proof.
  unfold keyedRow.
  destruct (insertedRow_materialize d id now data) as (back & -> & Hid & _).
  unfold field. rewrite Hid. simpl.
  destruct (insertedRow_fields d id now data) as (-> & _).
  apply String.eqb_refl.
Qed.

Lemma fresh_key (id : string) (t : list row) :
  existsb (λ r, String.eqb (r_id r) id) t = false → id ∉ map r_id t.
Proof.
  intros H Hin. apply list_elem_of_In, in_map_iff in Hin as (r & <- & Hr).
  assert (existsb (λ x, String.eqb (r_id x) (r_id r)) t = true); [|congruence].
  apply existsb_exists. exists r. split; [done|apply String.eqb_refl].
Qed.

Lemma NoDup_filter_keys (f : row → bool) (t : list row) :
  NoDup (map r_id t) → NoDup (map r_id (List.filter f t)).
Proof.
  induction t as [|r t IH]; simpl; [done|].
  intros [Hr Hnd]%NoDup_cons. destruct (f r); [|by apply IH].
  simpl. apply NoDup_cons. split; [|by apply IH].
  intros Hin. apply Hr.
  apply list_elem_of_In, in_map_iff in Hin as (x & Hx & [Hin _]%filter_In).
  rewrite <- Hx. by apply list_elem_of_In, in_map.
Qed.

Lemma forallb_filter {A} (p f : A → bool) (l : list A) :
  forallb p l = true → forallb p (List.filter f l) = true.
Proof.
  rewrite !forallb_forall. intros H a [Ha _]%filter_In. by apply H.
Qed.

Lemma set_wellKeyed (d : SQLiteDriver) (ms : Z) (rnd now : string)
  (data : gmap string value) :
  wellKeyed d → wellKeyed (set ms rnd now data d).2.
Proof.
  intros (t & Ht & Hk & Hnd). rewrite set_unfold, Ht.
  destruct (db d); [|by exists t].
  destruct (namesMissingColumn d _); [by exists t|].
  destruct (existsb _ t) eqn:Hfresh; [by exists t|].
  eexists. split; [reflexivity|]. split.
  - rewrite forallb_app. apply andb_true_iff. split.
    + exact Hk.
    + simpl. rewrite keyedRow_with_table, insertedRow_keyed. done.
  - rewrite map_app. apply NoDup_app. split_and!; [done| |].
    + intros id Hid Hin. simpl in Hin. apply list_elem_of_singleton in Hin.
      destruct (insertedRow_fields d (generateId ms rnd) now data) as (Hr & _).
      rewrite Hr in Hin. subst id. by apply (fresh_key _ _ Hfresh).
    + apply NoDup_singleton.
Qed.

Lemma delete_wellKeyed (d : SQLiteDriver) (query : gmap string value) :
  wellKeyed d → wellKeyed (delete query d).2.
Proof.
  intros (t & Ht & Hk & Hnd). destruct (db d) eqn:Hdb.
  - rewrite (delete_keyed query d t) by done.
    eexists. split; [reflexivity|]. split.
    + apply forallb_filter. exact Hk.
    + by apply NoDup_filter_keys.
  - unfold delete. rewrite guarded_closed by done. by exists t.
Qed.

(** X19. On a connected driver whose rows are keyed, after
    [delete query]: [get query] returns no record, the count has gone down
    by the number returned, a second [delete query] returns 0 and changes
    nothing, and [get {}] returns the records of the rows that did not
    match. *)
Theorem delete_then_get (query : gmap string value) (d : SQLiteDriver)
  (t : list row) :
  db d = true → table d = Some t →
  forallb (keyedRow d) t = true → NoDup (map r_id t) →
  ∃ n d', delete query d = (Ok n, d')
    ∧ get query d' = (Ok [], d')
    ∧ count ∅ d' = (Ok (length t - n)%nat, d')
    ∧ delete query d' = (Ok 0%nat, d')
    ∧ get ∅ d'
      = (Ok (map (recordOf d)
               (List.filter (λ r, negb (rowMatches d query r)) t)), d').
Proof.
  intros Hdb Ht Hk Hnd. rewrite (delete_keyed query d t) by done.
  eexists _, _. split; [reflexivity|].
  set (t' := List.filter (λ r, negb (rowMatches d query r)) t).
  assert (Hk' : forallb (keyedRow (with_table (Some t') d)) t' = true).
  { apply forallb_filter. exact Hk. }
  assert (Hnd' : NoDup (map r_id t')) by by apply NoDup_filter_keys.
  assert (Hnone : List.filter (rowMatches (with_table (Some t') d) query) t' = []).
  { unfold t'. rewrite filter_filter. clear.
    induction t as [|r l IH]; simpl; [done|].
    rewrite rowMatches_with_table.
    by destruct (rowMatches d query r). }
  assert (Hlen : length t' = (length t - length (List.filter (rowMatches d query) t))%nat).
  { unfold t'. clear. induction t as [|r l IH]; simpl; [done|].
    destruct (rowMatches d query r); simpl; [done|].
    rewrite IH.
    pose proof (filter_length_le (rowMatches d query) l). lia. }
  split_and!.
  - rewrite (get_keyed query _ t') by done. by rewrite Hnone.
  - rewrite (count_all _ t') by done. by rewrite Hlen.
  - rewrite (delete_keyed query _ t') by done. rewrite Hnone.
    assert (Hall : List.filter (λ r, negb (rowMatches (with_table (Some t') d) query r)) t' = t').
    { unfold t'. rewrite filter_filter. apply filter_ext. intros r.
      rewrite rowMatches_with_table. by destruct (rowMatches d query r). }
    by rewrite Hall.
  - rewrite (get_keyed ∅ _ t') by done. do 2 f_equal.
    assert (Hall : List.filter (rowMatches (with_table (Some t') d) ∅) t' = t').
    { rewrite forallb_forall in Hk'. apply forallb_filter_id.
      apply forallb_forall. intros r Hr.
      specialize (Hk' r Hr). unfold keyedRow in Hk'. unfold rowMatches.
      destruct (materialize _ r) as [[| | | | | | |o]|]; try done. }
    by rewrite Hall.
Qed.

Lemma delete_then_get_witness :
  ∃ n d',
    delete {["role" := VStr "user"]} oneRecordDriver = (Ok n, d')
    ∧ get {["role" := VStr "user"]} d' = (Ok [], d')
    ∧ count ∅ d' = (Ok (1 - n)%nat, d').
Proof.
  destruct (delete_then_get {["role" := VStr "user"]} oneRecordDriver
              [sampleRow] eq_refl oneRecordDriver_table oneRecordDriver_keyed
              (NoDup_singleton _)) as (n & d' & Hd & Hg & Hc & _).
  exists n, d'. split_and!; [exact Hd|exact Hg|exact Hc].
Defined.


(** ** What [delete] never does *)

Lemma onlyRemoves_refl (d : SQLiteDriver) : onlyRemoves d d.
Proof.
  unfold onlyRemoves. split_and!; try done. destruct (table d) as [t|]; [|done].
  by exists t.
Qed.

Lemma onlyRemoves_trans (d1 d2 d3 : SQLiteDriver) :
  onlyRemoves d1 d2 → onlyRemoves d2 d3 → onlyRemoves d1 d3.
Proof.
  unfold onlyRemoves. intros (?&?&?&?&H12) (?&?&?&?&H23).
  split_and!; try congruence.
  destruct (table d1) as [t1|].
  - destruct H12 as (t2 & Ht2 & ?). rewrite Ht2 in H23.
    destruct H23 as (t3 & ? & ?). exists t3. split; [done|]. by etrans.
  - by rewrite H12 in H23.
Qed.

Lemma sublist_List_filter {A} (f : A → bool) (l : list A) :
  sublist (List.filter f l) l.
Proof.
  induction l as [|a l IH]; simpl; [constructor|].
  destruct (f a); by constructor.
Qed.

Lemma sqlDelete_onlyRemoves (k : cell) (d : SQLiteDriver) :
  onlyRemoves d (sqlDelete k d).2.
Proof.
  unfold sqlDelete, andThen, rows, store, onlyRemoves.
  destruct (table d) as [t|] eqn:Ht; simpl; rewrite ?Ht; [|done].
  split_and!; try done. eexists. split; [done|]. apply sublist_List_filter.
Qed.

Lemma andThen_onlyRemoves {A B} (m : M A) (k : A → M B) (d : SQLiteDriver) :
  onlyRemoves d (m d).2 → (∀ a d1, onlyRemoves d1 (k a d1).2) →
  onlyRemoves d ((let! a := m in k a) d).2.
Proof.
  intros Hm Hk. unfold andThen. destruct (m d) as [[a|e] d1]; [|done].
  apply (onlyRemoves_trans _ d1); [done|apply Hk].
Qed.

Lemma deleteLoop_onlyRemoves (records : list value) (d : SQLiteDriver) :
  onlyRemoves d (deleteLoop records d).2.
Proof.
  revert d. induction records as [|record records IH]; intros d.
  - apply onlyRemoves_refl.
  - cbn [deleteLoop]. apply andThen_onlyRemoves.
    + apply andThen_onlyRemoves; [apply onlyRemoves_refl|]. intros id d1.
      apply andThen_onlyRemoves; [apply onlyRemoves_refl|]. intros k d2.
      apply sqlDelete_onlyRemoves.
    + intros [] d1. apply andThen_onlyRemoves; [apply IH|].
      intros n d2. apply onlyRemoves_refl.
Qed.

Lemma deleteLoop_count (records : list value) (n : nat) (d d' : SQLiteDriver) :
  deleteLoop records d = (Ok n, d') → n = length records.
Proof.
  revert n d d'. induction records as [|record records IH]; intros n d d'.
  - by intros [= <- _].
  - cbn [deleteLoop]. intros ([] & d1 & _ & H)%andThen_Ok.
    apply andThen_Ok in H as (m & d2 & Hl & [= <- _]).
    simpl. f_equal. by apply (IH _ _ _ Hl).
Qed.

Lemma delete_rows (query : gmap string value) (d : SQLiteDriver) :
  onlyRemoves d (delete query d).2.
Proof.
  pose proof (get_state query d) as Hget.
  unfold delete. unfold andThen at 1. unfold ensureConnected.
  destruct (db d); [|apply onlyRemoves_refl].
  unfold andThen.
  destruct (get query d) as [[records|e] d1]; simpl in Hget; subst d1.
  - apply deleteLoop_onlyRemoves.
  - apply onlyRemoves_refl.
Qed.

Lemma delete_number (query : gmap string value) (d d' : SQLiteDriver) (n : nat) :
  delete query d = (Ok n, d') →
  ∃ records, get query d = (Ok records, d) ∧ n = length records.
Proof.
  pose proof (get_state query d) as Hget.
  intros Hu. unfold delete in Hu.
  destruct (db d) eqn:Hdb; [|by rewrite guarded_closed in Hu].
  rewrite guarded_open in Hu by done. unfold andThen in Hu.
  destruct (get query d) as [[records|e] d1]; simpl in Hget; subst d1;
    [|done].
  exists records. split; [done|]. by apply (deleteLoop_count _ _ _ _ Hu).
Qed.

(** X20. [delete] only removes rows, also when it throws half-way: the
    rows left are rows of the table before, unchanged and in their order;
    the connection, the schema, the mode and the open transaction stay.
    When it returns, the number is the number of records that [get]
    returns for the query. *)
Theorem delete_only_removes (query : gmap string value) (d : SQLiteDriver) :
  onlyRemoves d (delete query d).2
  ∧ ∀ n d', delete query d = (Ok n, d') →
      ∃ records, get query d = (Ok records, d) ∧ n = length records.
Proof.
  split; [apply delete_rows|]. intros n d'. apply delete_number.
Qed.

(** ** Updating one record *)

Lemma strictEq_text (v : value) (s : string) :
  strictEq v (VStr s) = true → v = VStr s.
Proof.
  destruct v; try done. simpl. by intros ->%String.eqb_eq.
Qed.

Lemma rowMatches_key (d : SQLiteDriver) (id : string) (r : row) :
  keyedRow d r = true →
  rowMatches d {["_id" := VStr id]} r = String.eqb (r_id r) id.
Proof.
  unfold keyedRow, rowMatches.
  destruct (materialize d r) as [[| | | | | | |o]|]; try done.
  intros H%strictEq_text. rewrite map_to_list_singleton. simpl.
  rewrite H. simpl. by rewrite andb_true_r.
Qed.

Lemma rewriteRows_by_key (d : SQLiteDriver) (stamps : nat → string)
  (data : gmap string value) (id : string) (t : list row) (r : row) :
  forallb (keyedRow d) t = true →
  List.find (key_matches (CText id)) t = Some r →
  List.find (key_matches (CText id))
    (rewriteRows d stamps {["_id" := VStr id]} data 0 t)
  = Some (rewrittenRow (stamps 0%nat) data (recordOf d r) r).
Proof.
  induction t as [|x t IH]; [done|].
  cbn [forallb List.find rewriteRows].
  intros [Hx Hk]%andb_true_iff. rewrite (rowMatches_key d id x Hx).
  unfold key_matches at 1. rewrite (String.eqb_sym id).
  destruct (String.eqb (r_id x) id) eqn:Heq.
  - intros [= <-]. cbn [List.find]. unfold key_matches.
    by rewrite rewrittenRow_id, String.eqb_sym, Heq.
  - intros Hf. cbn [List.find]. unfold key_matches at 1.
    rewrite String.eqb_sym, Heq. by apply IH.
Qed.

Lemma filter_absent_key (t : list row) (id : string) :
  id ∉ map r_id t → List.filter (λ x, String.eqb (r_id x) id) t = [].
Proof.
  induction t as [|x t IH]; [done|]. cbn [map List.filter].
  intros [Hx Ht]%not_elem_of_cons.
  destruct (String.eqb (r_id x) id) eqn:Hy; [|by apply IH].
  apply String.eqb_eq in Hy. congruence.
Qed.

Lemma filter_by_key (t : list row) (r : row) :
  NoDup (map r_id t) → In r t →
  List.filter (λ x, String.eqb (r_id x) (r_id r)) t = [r].
Proof.
  induction t as [|x t IH]; [done|]. cbn [map List.filter].
  intros [Hx Hnd]%NoDup_cons [->|Hr].
  - rewrite String.eqb_refl. f_equal. by apply filter_absent_key.
  - destruct (String.eqb (r_id x) (r_id r)) eqn:Hy; [|by apply IH].
    apply String.eqb_eq in Hy. destruct Hx. rewrite Hy.
    by apply list_elem_of_In, in_map.
Qed.

Lemma find_by_key (t : list row) (id : string) (r : row) :
  List.find (key_matches (CText id)) t = Some r → In r t ∧ r_id r = id.
Proof.
  intros [Hin Hk]%find_some. split; [done|].
  unfold key_matches in Hk. by apply String.eqb_eq in Hk.
Qed.

Lemma getOne_keyed (d : SQLiteDriver) (t : list row) (id : string) :
  db d = true → table d = Some t → id ≠ EmptyString →
  getOne {["_id" := VStr id]} d
  = (match List.find (key_matches (CText id)) t with
     | Some r => materialize d r
     | None => Ok VNull
     end, d).
Proof.
  intros Hdb Ht Hid.
  rewrite getOne_by_key by (rewrite field_singleton; by destruct id).
  rewrite guarded_open by done. rewrite field_singleton.
  unfold primaryKeyLookup, sqlSelectById, andThen, rows, ret, lift, materialize.
  cbn [bindParam bindValue]. rewrite Ht.
  destruct (List.find _ t) as [r|]; [|done]. by destruct (isHybrid d).
Qed.

Lemma rewriteRows_other_key (d : SQLiteDriver) (stamps : nat → string)
  (data : gmap string value) (id other : string) (t : list row) (i : nat) :
  forallb (keyedRow d) t = true → other ≠ id →
  List.find (key_matches (CText other))
    (rewriteRows d stamps {["_id" := VStr id]} data i t)
  = List.find (key_matches (CText other)) t.
Proof.
  intros Hk Hne. revert i Hk. induction t as [|x t IH]; intros i; [done|].
  cbn [forallb List.find rewriteRows].
  intros [Hx Hk]%andb_true_iff. rewrite (rowMatches_key d id x Hx).
  destruct (String.eqb (r_id x) id) eqn:Heq.
  - cbn [List.find]. unfold key_matches at 1 3. rewrite rewrittenRow_id.
    apply String.eqb_eq in Heq.
    destruct (String.eqb other (r_id x)) eqn:Ho.
    + apply String.eqb_eq in Ho. congruence.
    + by apply IH.
  - cbn [List.find]. destruct (key_matches (CText other) x); [done|].
    by apply IH.
Qed.

(** X21. Without schema, on a connected driver whose rows are keyed:
    updating the record of a key by that key returns 1, and the record
    then read under the key is the JSON image of the earlier record
    overlaid with the patch, with [_updatedAt] the time of the update
    (a field of the patch wins, [_id] and [_createdAt] included); the
    record under every other key reads as before. *)
Theorem update_then_getOne (stamps : nat → string) (data o : gmap string value)
  (d : SQLiteDriver) (t : list row) (id : string) :
  db d = true → isHybrid d = false → table d = Some t →
  forallb (keyedRow d) t = true → NoDup (map r_id t) →
  id ≠ EmptyString →
  getOne {["_id" := VStr id]} d = (Ok (VObj o), d) →
  ∃ d', update stamps {["_id" := VStr id]} data d = (Ok 1%nat, d')
    ∧ getOne {["_id" := VStr id]} d'
      = (Ok (VObj (omap toJSON
                     (<["_updatedAt" := VStr (stamps 0%nat)]> (data ∪ o)))), d')
    ∧ ∀ other, other ≠ id → other ≠ EmptyString →
        (getOne {["_id" := VStr other]} d').1
        = (getOne {["_id" := VStr other]} d).1.
Proof.
  intros Hdb Hh Ht Hk Hnd Hid Hone.
  rewrite (getOne_keyed d t id) in Hone by done.
  destruct (List.find _ t) as [r|] eqn:Hfind; [|done].
  injection Hone as Hm.
  destruct (find_by_key t id r Hfind) as [Hin Hr].
  rewrite (update_keyed stamps _ data d t) by done.
  eexists. split; [|split].
  - f_equal. f_equal.
    rewrite (filter_ext_in _ (λ x, String.eqb (r_id x) (r_id r))).
    + by rewrite filter_by_key.
    + intros x Hx. rewrite rowMatches_key, Hr; [done|].
      rewrite forallb_forall in Hk. by apply Hk.
  - rewrite (getOne_keyed _ (rewriteRows d stamps {["_id" := VStr id]} data 0 t) id)
      by done.
    rewrite (rewriteRows_by_key d stamps data id t r) by done.
    unfold recordOf. rewrite Hm.
    unfold materialize, rewrittenRow. rewrite isHybrid_with_table, Hh.
    unfold parseData, JSON_stringify. simpl. done.
  - intros other Hne Ho.
    rewrite (getOne_keyed d t other) by done.
    rewrite (getOne_keyed _ (rewriteRows d stamps {["_id" := VStr id]} data 0 t) other)
      by done.
    cbn [fst]. by rewrite rewriteRows_other_key.
Qed.

Lemma update_then_getOne_witness :
  ∃ d',
    update sampleStamps {["_id" := VStr sampleId]} {["role" := VStr "admin"]}
      oneRecordDriver = (Ok 1%nat, d')
    ∧ getOne {["_id" := VStr sampleId]} d'
      = (Ok (VObj (omap toJSON
                     (<["_updatedAt" := VStr laterTime]>
                        ({["role" := VStr "admin"]}
                         ∪ stamped sampleId sampleTime sampleRecord)))), d').
Proof.
  assert (Hone : getOne {["_id" := VStr sampleId]} oneRecordDriver
    = (Ok (VObj (stamped sampleId sampleTime sampleRecord)), oneRecordDriver))
    by (vm_compute; reflexivity).
  destruct (update_then_getOne sampleStamps {["role" := VStr "admin"]}
              (stamped sampleId sampleTime sampleRecord) oneRecordDriver
              [sampleRow] sampleId eq_refl eq_refl oneRecordDriver_table
              oneRecordDriver_keyed (NoDup_singleton _)
              ltac:(discriminate) Hone) as (d' & Hu & Hg & _).
  exists d'. split; [exact Hu|exact Hg].
Defined.


(** ** The rows stay keyed *)

Lemma getProp_ownProps (record : value) (k : string) :
  k ≠ "length" →
  getProp record k
  = match record with
    | VNull | VUndefined => Err TypeError
    | _ => Ok (default VUndefined (ownProps record !! k))
    end.
Proof.
  intros Hk. destruct record; try done; simpl;
    by rewrite (proj2 (String.eqb_neq _ _) Hk).
Qed.

Lemma andThen_inv {A B} (P : SQLiteDriver → Prop) (m : M A) (k : A → M B)
  (d : SQLiteDriver) :
  P (m d).2 →
  (∀ a d1, m d = (Ok a, d1) → P d1 → P (k a d1).2) →
  P ((let! a := m in k a) d).2.
Proof.
  intros Hm Hk. unfold andThen. destruct (m d) as [[a|e] d1] eqn:Hmd; [|done].
  by apply Hk.
Qed.

Lemma sqlUpdate_isHybrid (change : row → row) (k : cell) (d : SQLiteDriver) :
  isHybrid (sqlUpdate change k d).2 = isHybrid d.
Proof.
  unfold sqlUpdate, andThen, rows, store. by destruct (table d).
Qed.

Lemma sqlUpdate_wellKeyed (change : row → row) (k : cell) (d : SQLiteDriver) :
  wellKeyed d →
  (∀ r, key_matches k r = true →
        r_id (change r) = r_id r ∧ keyedRow d (change r) = true) →
  wellKeyed (sqlUpdate change k d).2.
Proof.
  intros (t & Ht & Hk & Hnd) Hc. unfold sqlUpdate, andThen, rows, store.
  rewrite Ht. eexists. split; [reflexivity|]. split.
  - rewrite forallb_forall in Hk |- *. intros r' [r [<- Hr]]%in_map_iff.
    change (keyedRow d (if key_matches k r then change r else r) = true).
    destruct (key_matches k r) eqn:Hm; [by apply Hc|by apply Hk].
  - rewrite map_map.
    rewrite (map_ext _ r_id); [done|]. intros r.
    destruct (key_matches k r) eqn:Hm; [by apply Hc|done].
Qed.

Lemma hybrid_row_keyed (d : SQLiteDriver) (s : schema_object)
  (record : gmap string value) (r : row) (cols : gmap string cell)
  (stamp : string) :
  schema d = Some s → isHybrid d = true →
  keyedRow d {| r_id := r_id r; r_cols := cols;
                r_payload :=
                  Some (JSON_stringify (VObj (splitData (Some s) record).2));
                r_createdAt := r_createdAt r; r_updatedAt := stamp |} = true.
Proof.
  intros Hs Hh. unfold keyedRow, materialize. rewrite Hh, Hs.
  unfold mergeData, select_star, JSON_stringify. cbn -[splitData].
  unfold field, spread. rewrite lookup_union_r.
  - rewrite map_lookup_imap, lookup_insert_eq. simpl.
    rewrite castColumn_other by done. simpl. apply String.eqb_refl.
  - rewrite lookup_omap.
    by rewrite (proj2 (splitData_lookup s _ "_id")), orb_true_r.
Qed.

Lemma plain_row_keyed (d : SQLiteDriver) (stamp : string)
  (data : gmap string value) (record : value) (s : string) (r : row) :
  isHybrid d = false → data !! "_id" = None →
  getProp record "_id" = Ok (VStr s) → key_matches (CText s) r = true →
  keyedRow d (rewrittenRow stamp data record r) = true.
Proof.
  intros Hh Hd Hid Hm. unfold keyedRow, materialize, rewrittenRow.
  rewrite Hh. unfold parseData, JSON_stringify. simpl.
  unfold field. rewrite lookup_omap, lookup_insert_ne by done.
  unfold spread. rewrite lookup_union_r by done.
  rewrite getProp_ownProps in Hid by done.
  assert (Ho : ownProps record !! "_id" = Some (VStr s)).
  { assert (Hid' : default VUndefined (ownProps record !! "_id") = VStr s)
      by (destruct record; by try injection Hid).
    destruct (ownProps record !! "_id") as [v|]; simpl in Hid'; [by subst|done]. }
  rewrite Ho. simpl. unfold key_matches in Hm. done.
Qed.

Lemma updateLoop_wellKeyed (stamps : nat → string) (data : gmap string value)
  (records : list value) (i : nat) (d0 d : SQLiteDriver) :
  isHybrid d0 = true ∨ data !! "_id" = None →
  Forall (λ record, ∃ s, getProp record "_id" = Ok (VStr s)) records →
  wellKeyed d ∧ isHybrid d = isHybrid d0 →
  wellKeyed (updateLoop stamps data i records d).2
  ∧ isHybrid (updateLoop stamps data i records d).2 = isHybrid d0.
Proof.
  intros Hd Hrec. revert i d. induction records as [|record records IH];
    intros i d [Hw Hh0]; [done|].
  apply Forall_cons in Hrec as [[s0 Hs0] Hrec].
  cbn [updateLoop].
  apply (andThen_inv (λ d', wellKeyed d' ∧ isHybrid d' = isHybrid d0)).
  - destruct (isHybrid d) eqn:Hh.
    + destruct (schema d) as [s|] eqn:Hs;
        [|by unfold isHybrid in Hh; rewrite Hs in Hh].
      pose proof (hybrid_row_keyed d s
        (<["_updatedAt":=VStr (stamps i)]> (spread (ownProps record) data)))
        as Hrow.
      destruct (splitData (Some s) _) as [sd ed].
      apply (andThen_inv (λ d', wellKeyed d' ∧ isHybrid d' = isHybrid d0)).
      { cbn [lift snd]. by rewrite Hh. }
      intros id d1 [= _ <-] _.
      apply (andThen_inv (λ d', wellKeyed d' ∧ isHybrid d' = isHybrid d0)).
      { rewrite sqlPrepareColumns_state. by rewrite Hh. }
      intros [] d2 (-> & _)%sqlPrepareColumns_Ok _.
      apply (andThen_inv (λ d', wellKeyed d' ∧ isHybrid d' = isHybrid d0)).
      { cbn [lift snd]. by rewrite Hh. }
      intros k d3 [= _ <-] _.
      split; [|by rewrite sqlUpdate_isHybrid, Hh].
      apply sqlUpdate_wellKeyed; [done|]. intros r _. split; [done|].
      by apply Hrow.
    + destruct Hd as [Hd|Hd]; [congruence|].
      apply (andThen_inv (λ d', wellKeyed d' ∧ isHybrid d' = isHybrid d0)).
      { cbn [lift snd]. by rewrite Hh. }
      intros id d1 [= Hid <-] _. rewrite Hs0 in Hid. injection Hid as <-.
      apply (andThen_inv (λ d', wellKeyed d' ∧ isHybrid d' = isHybrid d0)).
      { cbn [lift snd]. by rewrite Hh. }
      intros k d2 [= <- <-] _.
      split; [|by rewrite sqlUpdate_isHybrid, Hh].
      apply sqlUpdate_wellKeyed; [done|]. intros r Hm. split; [done|].
      by apply (plain_row_keyed d _ _ record s0).
  - intros [] d1 _ Hd1.
    apply (andThen_inv (λ d', wellKeyed d' ∧ isHybrid d' = isHybrid d0));
      [by apply IH|]. by intros n d2 _ ?.
Qed.

Lemma update_wellKeyed (d : SQLiteDriver) (stamps : nat → string)
  (query data : gmap string value) :
  wellKeyed d → isHybrid d = true ∨ data !! "_id" = None →
  wellKeyed (update stamps query data d).2.
Proof.
  intros Hw Hd. unfold update. destruct (db d) eqn:Hdb.
  - rewrite guarded_open by done. unfold andThen.
    destruct Hw as (t & Ht & Hk & Hnd).
    rewrite (get_keyed query d t) by done.
    apply (updateLoop_wellKeyed stamps data _ 0 d d); [done| |].
    + apply Forall_forall. intros record [r [<- Hr]]%list_elem_of_In%in_map_iff.
      apply filter_In in Hr as [Hr _]. rewrite forallb_forall in Hk.
      destruct (keyedRow_spec d r (Hk r Hr)) as (o & _ & -> & Hid).
      by exists (r_id r).
    + split; [by exists t|done].
  - by rewrite guarded_closed.
Qed.

(** X22. The driver keeps its rows keyed: when every row reads as an
    object that carries the key of the row and no key is used twice, this
    still holds after [set], after [delete], after [clear], after a read,
    and after [update] with a schema or with a patch that has no [_id],
    whether the call returns or throws. *)
Theorem wellKeyed_preserved (d : SQLiteDriver) :
  wellKeyed d →
  (∀ ms rnd now data, wellKeyed (set ms rnd now data d).2)
  ∧ (∀ query, wellKeyed (delete query d).2)
  ∧ (∀ stamps query data, isHybrid d = true ∨ data !! "_id" = None →
       wellKeyed (update stamps query data d).2)
  ∧ (∀ query, wellKeyed (get query d).2)
  ∧ wellKeyed (clear d).2.
Proof.
  intros Hw. split_and!.
  - intros. by apply set_wellKeyed.
  - intros. by apply delete_wellKeyed.
  - intros. by apply update_wellKeyed.
  - intros query. by rewrite get_state.
  - destruct Hw as (t & Ht & Hk & Hnd). unfold clear.
    destruct (db d) eqn:Hdb; [|rewrite guarded_closed by done; by exists t].
    rewrite guarded_open by done.
    unfold sqlDeleteAll, andThen, rows, store. rewrite Ht.
    exists []. split_and!; [done|done|constructor].
Qed.

Lemma wellKeyed_preserved_witness :
  wellKeyed (set 1714557600001 "q7w2e" laterTime secondRecord oneRecordDriver).2
  ∧ wellKeyed (delete {["role" := VStr "user"]} oneRecordDriver).2.
Proof.
  destruct (wellKeyed_preserved oneRecordDriver oneRecordDriver_wellKeyed)
    as (Hset & Hdel & _).
  split; [apply Hset|apply Hdel].
Defined.

(** ** Reading back what was inserted with a schema *)







(** ** The earlier driver and the current one *)

Lemma omap_toJSON_restore (m : gmap string value) (k : string) :
  omap toJSON (<[k := default VUndefined (m !! k)]> m) = omap toJSON m.
Proof.
  apply map_eq. intros key. rewrite !lookup_omap.
  destruct (decide (k = key)) as [<-|Hne].
  - rewrite lookup_insert_eq. by destruct (m !! k).
  - by rewrite lookup_insert_ne.
Qed.

Lemma andThen_cong {A B} (m m' : M A) (k k' : A → M B) (d : SQLiteDriver) :
  m d = m' d → (∀ a d1, m' d = (Ok a, d1) → k a d1 = k' a d1) →
  (let! a := m in k a) d = (let! a := m' in k' a) d.
Proof.
  intros Hm Hk. unfold andThen. rewrite Hm.
  destruct (m' d) as [[a|e] d1]; [|done]. by apply Hk.
Qed.

Lemma legacy_updateLoop (stamps : nat → string) (data : gmap string value)
  (records : list value) (i : nat) (d : SQLiteDriver) :
  isHybrid d = false → data !! "_id" = None → data !! "_createdAt" = None →
  Legacy.updateLoop stamps data i records d = updateLoop stamps data i records d.
Proof.
  intros Hh Hid Hc. revert i d Hh.
  induction records as [|record records IH]; intros i d Hh; [done|].
  cbn [Legacy.updateLoop updateLoop].
  set (U := <["_updatedAt" := VStr (stamps i)]> (spread (ownProps record) data)).
  assert (H1 : U !! "_id" = ownProps record !! "_id").
  { unfold U, spread. rewrite lookup_insert_ne by done.
    by rewrite lookup_union_r. }
  assert (H2 : (<["_id" := default VUndefined (ownProps record !! "_id")]> U)
               !! "_createdAt" = ownProps record !! "_createdAt").
  { unfold U, spread. rewrite !lookup_insert_ne by done.
    by rewrite lookup_union_r. }
  assert (Hpay : JSON_stringify (VObj
      (<["_createdAt" := default VUndefined (ownProps record !! "_createdAt")]>
         (<["_id" := default VUndefined (ownProps record !! "_id")]> U)))
    = JSON_stringify (VObj U)).
  { unfold JSON_stringify. cbn [toJSON default]. do 2 f_equal.
    rewrite <- H2, omap_toJSON_restore.
    rewrite <- H1. by rewrite omap_toJSON_restore. }
  apply andThen_cong.
  - rewrite Hh. rewrite !(getProp_ownProps record) by done.
    destruct record; try done; unfold andThen, lift; cbv zeta; by rewrite Hpay.
  - intros [] d1 Hstep. apply andThen_cong; [|done]. apply IH.
    rewrite Hh in Hstep. rewrite <- Hh.
    apply andThen_Ok in Hstep as (id & d2 & [= _ <-] & Hstep).
    apply andThen_Ok in Hstep as (k & d3 & [= _ <-] & Hstep).
    apply (f_equal snd) in Hstep. simpl in Hstep. subst d1.
    apply sqlUpdate_isHybrid.
Qed.

(** X24. Without schema the earlier driver and the current one agree:
    [get] is the same function of the query and the driver, and [update]
    is the same when the patch has neither [_id] nor [_createdAt] (what
    the earlier driver restores is then what the record already has). *)
Theorem legacy_agrees (stamps : nat → string) (query data : gmap string value)
  (d : SQLiteDriver) :
  schema d = None →
  Legacy.get query d = get query d
  ∧ (data !! "_id" = None → data !! "_createdAt" = None →
     Legacy.update stamps query data d = update stamps query data d).
Proof.
  intros Hs.
  assert (Hh : isHybrid d = false) by (unfold isHybrid; by rewrite Hs).
  assert (Hget : Legacy.get query d = get query d).
  { unfold Legacy.get, get. destruct (db d) eqn:Hdb.
    2:{ by rewrite !guarded_closed. }
    rewrite !guarded_open by done. rewrite Hh.
    unfold sqlSelectAll, andThen, rows, lift, ret.
    destruct (isEmptyQuery query), (table d) as [t|]; try done;
      by destruct (mapR parseData t). }
  split; [done|]. intros Hid Hc.
  unfold Legacy.update, update. destruct (db d) eqn:Hdb.
  2:{ by rewrite !guarded_closed. }
  rewrite !guarded_open by done.
  apply andThen_cong; [done|]. intros records d1 Hg.
  apply legacy_updateLoop; try done.
  pose proof (get_state query d) as Hst. rewrite Hg in Hst. simpl in Hst.
  by subst d1.
Qed.

Lemma legacy_agrees_witness :
  Legacy.get {["role" := VStr "user"]} oneRecordDriver
  = get {["role" := VStr "user"]} oneRecordDriver
  ∧ Legacy.update sampleStamps {["role" := VStr "user"]}
      {["role" := VStr "admin"]} oneRecordDriver
    = update sampleStamps {["role" := VStr "user"]}
        {["role" := VStr "admin"]} oneRecordDriver.
Proof.
  destruct (legacy_agrees sampleStamps {["role" := VStr "user"]}
              {["role" := VStr "admin"]} oneRecordDriver eq_refl) as (Hg & Hu).
  split; [exact Hg|]. apply Hu; vm_compute; reflexivity.
Defined.

(** ** Transactions *)

Lemma answering_state {A} (f : A → answer) (m : M A) (d : SQLiteDriver) :
  (answering f m d).2 = (m d).2.
Proof. unfold answering, andThen, ret. by destruct (m d) as [[a|e] d1]. Qed.

Lemma guarded_sameConnection {A} (m : M A) (d : SQLiteDriver) :
  sameConnection d (m d).2 → sameConnection d ((ensureConnected ;; m) d).2.
Proof.
  intros H. destruct (db d) eqn:Hdb.
  - by rewrite guarded_open.
  - by rewrite guarded_closed.
Qed.

Lemma dataCall_sameConnection (e : raw_engine) (c : call) (d : SQLiteDriver) :
  dataCall c = true → sameConnection d (invoke e c d).2.
Proof.
  intros Hc. destruct c; try done; unfold invoke; rewrite answering_state.
  - rewrite set_unfold. destruct (db d) eqn:Hdb; [|done].
    destruct (table d) as [t|]; [|done].
    destruct (namesMissingColumn d _); [done|]. by destruct (existsb _ t).
  - by rewrite get_state.
  - by rewrite getOne_state.
  - pose proof (update_rows stamps query data d) as (?&?&?&?&_). done.
  - pose proof (delete_rows query d) as (?&?&?&?&_). done.
  - unfold exists_. apply guarded_sameConnection.
    unfold andThen, ret. pose proof (getOne_state query d) as H.
    destruct (getOne query d) as [[r|err] d1]; simpl in *; by subst.
  - unfold count. apply guarded_sameConnection.
    destruct (isEmptyQuery query).
    + unfold sqlCount, andThen, rows, ret. by destruct (table d).
    + unfold andThen, ret. pose proof (get_state query d) as H.
      destruct (get query d) as [[r|err] d1]; simpl in *; by subst.
  - apply guarded_sameConnection. unfold sqlDeleteAll, andThen, rows, store.
    by destruct (table d).
  - by apply guarded_sameConnection.
  - apply guarded_sameConnection. unfold sqlVacuum. by destruct (snapshot d).
  - by apply guarded_sameConnection.
  - apply guarded_sameConnection. unfold lift. done.
Qed.

Lemma runCalls_sameConnection (e : raw_engine) (calls : list call)
  (d : SQLiteDriver) :
  forallb dataCall calls = true → sameConnection d (runCalls e calls d).
Proof.
  revert d. induction calls as [|c calls IH]; intros d; [done|].
  cbn [forallb runCalls]. intros [Hc Hcs]%andb_true_iff.
  destruct (dataCall_sameConnection e c d Hc) as (?&?&?&?).
  destruct (IH (invoke e c d).2 Hcs) as (?&?&?&?).
  unfold sameConnection. split_and!; congruence.
Qed.

(** X25. On a connected driver outside a transaction,
    [beginTransaction] returns, and after any sequence of calls that read
    or write records or the table (each may return or throw),
    [rollback] returns and gives back the driver as it was before
    [beginTransaction]: none of these calls ends or commits the
    transaction. *)
Theorem rollback_undoes (e : raw_engine) (calls : list call) (d : SQLiteDriver) :
  db d = true → snapshot d = None → forallb dataCall calls = true →
  ∃ d1, beginTransaction d = (Ok tt, d1)
    ∧ rollback (runCalls e calls d1) = (Ok tt, d).
Proof.
  intros Hdb Hs Hcs. unfold beginTransaction. rewrite guarded_open by done.
  unfold sqlBegin. rewrite Hs. eexists. split; [reflexivity|].
  destruct (runCalls_sameConnection e calls
              (with_snapshot (Some (table d)) d) Hcs) as (H1 & H2 & H3 & H4).
  unfold rollback. rewrite guarded_open by (by rewrite H1).
  unfold sqlRollback. rewrite H4. cbn [snapshot with_snapshot].
  f_equal. cbn in H1, H2, H3.
  destruct (runCalls e calls (with_snapshot (Some (table d)) d)) as [b sc ty tb sn].
  destruct d as [b0 sc0 ty0 tb0 sn0]. simpl in *. by subst.
Qed.

Lemma rollback_undoes_witness :
  ∃ d1, beginTransaction oneRecordDriver = (Ok tt, d1)
    ∧ rollback
        (runCalls idleEngine
           [CallSet 1714557600001 "q7w2e" laterTime secondRecord;
            CallDelete {["role" := VStr "user"]}; CallClear] d1)
      = (Ok tt, oneRecordDriver).
Proof.
  exact (rollback_undoes idleEngine
           [CallSet 1714557600001 "q7w2e" laterTime secondRecord;
            CallDelete {["role" := VStr "user"]}; CallClear]
           oneRecordDriver eq_refl eq_refl eq_refl).
Defined.
